(** * AutoBillTracker: the bill lifecycle of [src/main.ts]

    A shallow embedding of the bill store of [main.ts] (validation, upsert,
    delete, toggle-paid with recurrence rollover), of the derived view
    ([render]) and of the due-reminder selection ([maybeNotifyDue]),
    together with the fragment of the ECMAScript library these functions
    call ([String.prototype], [Math], [Number], [Date]).

    Conventions.
    - A JavaScript [number] that holds a monetary amount is a binary64
      float ([PrimFloat.float]).  A [number] that holds a time value, a day
      count or an array index is an integer or NaN; it is modelled as
      [option Z], [None] being NaN.
    - A JavaScript string is a sequence of code units.  [string] covers the
      code units below 256; [toLowerCase] and [trim] are given on that
      range.
    - A [throw] is modelled by the [Thrown] constructor of [Completion].
    - The local time zone of [Main] is a fixed offset [LocalTZA] (no
      daylight-saving transitions); [TimeZone] gives the [Date] setters and
      [nextRecurringDate] for a zone whose offset changes. *)

From Stdlib Require Import ZArith Lia Bool Ascii String PrimFloat.
From Stdlib Require Uint63.
From stdpp Require Import base option list.

Open Scope string_scope.
Open Scope Z_scope.

(** ** The ECMAScript fragment used by [main.ts] *)
Module JS.

(** *** Completions *)

Inductive Completion (A : Type) : Type :=
| Returned (a : A)
| Thrown (err : string).
Arguments Returned {A} a.
Arguments Thrown {A} err.

(** *** Numbers that are integers or NaN *)

Definition num := option Z.
Definition NaN : num := None.

Definition num_ltb (a b : num) : bool :=
  match a, b with Some x, Some y => x <? y | _, _ => false end.
Definition num_leb (a b : num) : bool :=
  match a, b with Some x, Some y => x <=? y | _, _ => false end.
Definition num_geb (a b : num) : bool := num_leb b a.
Definition num_eqb (a b : num) : bool :=
  match a, b with Some x, Some y => x =? y | _, _ => false end.
Definition num_add (a b : num) : num :=
  match a, b with Some x, Some y => Some (x + y) | _, _ => None end.
Definition num_sub (a b : num) : num :=
  match a, b with Some x, Some y => Some (x - y) | _, _ => None end.
Definition num_neg (a : num) : num := option_map Z.opp a.

(** [Math.round (a / b)] for integers [a] and [b > 0]: the quotient rounded
    to the nearest integer, ties towards +infinity.  (The binary64 division
    is exact when [b] divides [a], the only case that a fixed time-zone
    offset produces in [daysUntil].) *)
Definition Math_round_div (a : num) (b : Z) : num :=
  option_map (fun x => (2 * x + b) / (2 * b)) a.

(** *** Binary64 numbers *)

Definition Number_isFinite (n : float) : bool :=
  negb (PrimFloat.is_nan n || PrimFloat.is_infinity n).

Definition Math_max (x y : float) : float :=
  if PrimFloat.is_nan x || PrimFloat.is_nan y then PrimFloat.nan
  else if PrimFloat.ltb x y then y
  else if PrimFloat.ltb y x then x
  else if PrimFloat.get_sign x then y else x.

(** *** Strings *)

Definition codeUnit (c : ascii) : Z := Z.of_N (N_of_ascii c).
Definition fromCharCode (n : Z) : ascii := ascii_of_N (Z.to_N n).

(** WhiteSpace and LineTerminator code units below 256: TAB, LF, VT, FF,
    CR, SP and NBSP. *)
Definition isWhiteSpace (c : ascii) : bool :=
  let n := codeUnit c in
  ((9 <=? n) && (n <=? 13)) || (n =? 32) || (n =? 160).

Fixpoint trimStart (s : string) : string :=
  match s with
  | "" => ""
  | String c r => if isWhiteSpace c then trimStart r else s
  end.

Fixpoint trimEnd (s : string) : string :=
  match s with
  | "" => ""
  | String c r =>
      match trimEnd r with
      | "" => if isWhiteSpace c then "" else String c ""
      | r' => String c r'
      end
  end.

Definition trim (s : string) : string := trimEnd (trimStart s).

(** Lower-case mapping of one code unit below 256: A-Z and the Latin-1
    capitals other than the multiplication sign. *)
Definition lowerUnit (c : ascii) : ascii :=
  let n := codeUnit c in
  if ((65 <=? n) && (n <=? 90))
     || ((192 <=? n) && (n <=? 222) && negb (n =? 215))
  then fromCharCode (n + 32) else c.

Fixpoint toLowerCase (s : string) : string :=
  match s with
  | "" => ""
  | String c r => String (lowerUnit c) (toLowerCase r)
  end.

(** [s.includes(q)]: [q] occurs in [s] at some position. *)
Fixpoint includes (s q : string) : bool :=
  if String.prefix q s then true
  else match s with
       | "" => false
       | String _ r => includes r q
       end.

(** [s.slice(0, n)] for [n >= 0]. *)
Definition slice0 (n : nat) (s : string) : string := String.substring 0 n s.

(** [a.join(sep)] on an array of strings. *)
Fixpoint join (sep : string) (l : list string) : string :=
  match l with
  | [] => ""
  | [x] => x
  | x :: r => x ++ sep ++ join sep r
  end.

(** Decimal digits. *)
Definition isDigit (c : ascii) : bool :=
  (48 <=? codeUnit c) && (codeUnit c <=? 57).
Definition digitValue (c : ascii) : Z := codeUnit c - 48.
Definition digitChar (d : Z) : ascii := fromCharCode (48 + d).

(** The [n] low decimal digits of [v >= 0], most significant first
    (what [padStart n "0"] gives for a number of at most [n] digits). *)
Fixpoint padDigits (n : nat) (v : Z) : string :=
  match n with
  | O => ""
  | S k => padDigits k (v / 10) ++ String (digitChar (v mod 10)) ""
  end.

(** [String(n)] for a non-negative integer below 10^21: its decimal digits
    without padding. *)
Fixpoint decimalDigits (fuel : nat) (v : Z) : string :=
  match fuel with
  | O => ""
  | S k =>
      if v <? 10 then String (digitChar v) ""
      else decimalDigits k (v / 10) ++ String (digitChar (v mod 10)) ""
  end.

Definition Number_toString (n : num) : string :=
  match n with
  | None => "NaN"
  | Some v =>
      if v <? 0 then "-" ++ decimalDigits 22 (- v) else decimalDigits 22 v
  end.

(** *** Time values and the [Date] algorithms (ECMA-262, 21.4.1) *)

Definition msPerDay : Z := 86400000.
Definition msPerHour : Z := 3600000.
Definition msPerMinute : Z := 60000.
Definition msPerSecond : Z := 1000.

Definition Day (t : Z) : Z := t / msPerDay.
Definition TimeWithinDay (t : Z) : Z := t mod msPerDay.

Definition DaysInYear (y : Z) : Z :=
  if negb (y mod 4 =? 0) then 365
  else if negb (y mod 100 =? 0) then 366
  else if negb (y mod 400 =? 0) then 365
  else 366.

Definition DayFromYear (y : Z) : Z :=
  365 * (y - 1970) + (y - 1969) / 4 - (y - 1901) / 100 + (y - 1601) / 400.

(** The largest [y] with [DayFromYear y <= day]: the mean-year estimate is
    off by at most one, and is adjusted. *)
Definition YearFromDay (day : Z) : Z :=
  let y := 1970 + (400 * day) / 146097 in
  if day <? DayFromYear y then y - 1
  else if DayFromYear (y + 1) <=? day then y + 1
  else y.

Definition YearFromTime (t : Z) : Z := YearFromDay (Day t).

Definition leapDays (y : Z) : Z := if DaysInYear y =? 366 then 1 else 0.
Definition InLeapYear (t : Z) : Z := leapDays (YearFromTime t).

Definition DayWithinYear (t : Z) : Z := Day t - DayFromYear (YearFromTime t).

(** Day number, within a year, of the first day of month [m] (0-based);
    [l] is 1 in a leap year and 0 otherwise. *)
Definition monthStart (m l : Z) : Z :=
  if m =? 0 then 0
  else if m =? 1 then 31
  else if m =? 2 then 59 + l
  else if m =? 3 then 90 + l
  else if m =? 4 then 120 + l
  else if m =? 5 then 151 + l
  else if m =? 6 then 181 + l
  else if m =? 7 then 212 + l
  else if m =? 8 then 243 + l
  else if m =? 9 then 273 + l
  else if m =? 10 then 304 + l
  else 334 + l.

Definition monthOfDay (d l : Z) : Z :=
  if d <? 31 then 0
  else if d <? 59 + l then 1
  else if d <? 90 + l then 2
  else if d <? 120 + l then 3
  else if d <? 151 + l then 4
  else if d <? 181 + l then 5
  else if d <? 212 + l then 6
  else if d <? 243 + l then 7
  else if d <? 273 + l then 8
  else if d <? 304 + l then 9
  else if d <? 334 + l then 10
  else 11.

Definition MonthFromTime (t : Z) : Z :=
  monthOfDay (DayWithinYear t) (InLeapYear t).

Definition DateFromTime (t : Z) : Z :=
  DayWithinYear t - monthStart (MonthFromTime t) (InLeapYear t) + 1.

Definition HourFromTime (t : Z) : Z := (t / msPerHour) mod 24.
Definition MinFromTime (t : Z) : Z := (t / msPerMinute) mod 60.
Definition SecFromTime (t : Z) : Z := (t / msPerSecond) mod 60.
Definition msFromTime (t : Z) : Z := t mod msPerSecond.

Definition MakeTime (h m s ms : Z) : Z :=
  h * msPerHour + m * msPerMinute + s * msPerSecond + ms.

(** [MakeDay]: the day number of the first day of month [month mod 12] of
    year [year + floor (month / 12)], plus [date - 1]. *)
Definition MakeDay (year month date : Z) : Z :=
  let ym := year + month / 12 in
  let mn := month mod 12 in
  DayFromYear ym + monthStart mn (leapDays ym) + date - 1.

Definition MakeDate (day time : Z) : Z := day * msPerDay + time.

Definition TimeClip (t : Z) : num :=
  if Z.abs t <=? 8640000000000000 then Some t else None.

Definition DaysInMonth (y m : Z) : Z :=
  if m =? 2 then 28 + leapDays y
  else if (m =? 4) || (m =? 6) || (m =? 9) || (m =? 11) then 30
  else 31.

(** *** [Date] objects

    A [Date] object is its time value: milliseconds since the epoch, or
    NaN ("Invalid Date"). *)

Definition Date := num.

(** The year, month and day fields of a string of the shape [YYYY-MM-DD]. *)
Definition dateOnlyFields (s : string) : option (Z * Z * Z) :=
  match s with
  | String y1 (String y2 (String y3 (String y4 (String h1
      (String m1 (String m2 (String h2 (String d1 (String d2 ""))))))))) =>
      if isDigit y1 && isDigit y2 && isDigit y3 && isDigit y4
         && Ascii.eqb h1 "-" && isDigit m1 && isDigit m2
         && Ascii.eqb h2 "-" && isDigit d1 && isDigit d2
      then
        Some (1000 * digitValue y1 + 100 * digitValue y2
              + 10 * digitValue y3 + digitValue y4,
              10 * digitValue m1 + digitValue m2,
              10 * digitValue d1 + digitValue d2)
      else None
  | _ => None
  end.

(** [new Date(s)] on the date-only form [YYYY-MM-DD] of the date-time
    string format, which denotes midnight UTC.  Month must be 01-12.  The
    standard gives the day field the range 01-31; whether a day beyond the
    end of its month (02-30) is refused or carried into the next month is
    left to the engine, hence [strict].  Strings of any other shape are
    outside this model and are taken as unparsable. *)
Definition Date_parse (strict : bool) (s : string) : Date :=
  match dateOnlyFields s with
  | Some (y, m, d) =>
      if (1 <=? m) && (m <=? 12) && (1 <=? d)
         && (d <=? (if strict then DaysInMonth y m else 31))
      then TimeClip (MakeDate (MakeDay y (m - 1) d) 0)
      else None
  | None => None
  end.

Section LocalTime.
(** Offset of local time from UTC, in milliseconds, the same at every
    time.  ([TimeZone] below has the setters for an offset that changes.) *)
Variable LocalTZA : Z.

Definition LocalTime (t : Z) : Z := t + LocalTZA.
Definition UTC (t : Z) : Z := t - LocalTZA.

Definition getTime (d : Date) : num := d.

Definition getMonth (d : Date) : num :=
  option_map (fun t => MonthFromTime (LocalTime t)) d.

Definition getFullYear (d : Date) : num :=
  option_map (fun t => YearFromTime (LocalTime t)) d.

(** [d.setHours(0, 0, 0, 0)] *)
Definition setHours0 (d : Date) : Date :=
  match d with
  | None => None
  | Some t =>
      let lt := LocalTime t in
      TimeClip (UTC (MakeDate (Day lt) (MakeTime 0 0 0 0)))
  end.

(** [d.setMonth(m)] *)
Definition setMonth (d : Date) (m : num) : Date :=
  match d, m with
  | Some t, Some m =>
      let lt := LocalTime t in
      TimeClip (UTC (MakeDate (MakeDay (YearFromTime lt) m (DateFromTime lt))
                              (TimeWithinDay lt)))
  | _, _ => None
  end.

(** [d.setFullYear(y)]: an invalid date is first reset to +0. *)
Definition setFullYear (d : Date) (y : num) : Date :=
  match y with
  | None => None
  | Some y =>
      let lt := match d with Some t => LocalTime t | None => 0 end in
      TimeClip (UTC (MakeDate (MakeDay y (MonthFromTime lt) (DateFromTime lt))
                              (TimeWithinDay lt)))
  end.
End LocalTime.

(** [toISOString] of a finite time value: [YYYY-MM-DDTHH:mm:ss.sssZ], the
    year written with a sign and six digits outside 0..9999. *)
Definition isoYear (y : Z) : string :=
  if (0 <=? y) && (y <=? 9999) then padDigits 4 y
  else if y <? 0 then "-" ++ padDigits 6 (- y)
  else "+" ++ padDigits 6 y.

Definition isoString (t : Z) : string :=
  isoYear (YearFromTime t) ++ "-" ++ padDigits 2 (MonthFromTime t + 1)
  ++ "-" ++ padDigits 2 (DateFromTime t)
  ++ "T" ++ padDigits 2 (HourFromTime t) ++ ":" ++ padDigits 2 (MinFromTime t)
  ++ ":" ++ padDigits 2 (SecFromTime t) ++ "." ++ padDigits 3 (msFromTime t)
  ++ "Z".

(** [d.toISOString()] throws a RangeError on an invalid date. *)
Definition toISOString (d : Date) : Completion string :=
  match d with
  | Some t => Returned (isoString t)
  | None => Thrown "RangeError: Invalid time value"
  end.

(** *** Arrays and regular expressions *)

(** [a.findIndex(p)]: the first index whose element satisfies [p], or -1. *)
Fixpoint findIndex {A : Type} (p : A -> bool) (l : list A) : Z :=
  match l with
  | [] => -1
  | x :: r =>
      if p x then 0
      else let i := findIndex p r in if i <? 0 then -1 else i + 1
  end.

(** Anchored patterns [/^a1 a2 ... an$/] whose atoms are [\d] or one
    literal character. *)
Inductive Atom : Type := AnyDigit | Lit (c : ascii).

Definition atomMatches (a : Atom) (c : ascii) : bool :=
  match a with
  | AnyDigit => isDigit c
  | Lit x => Ascii.eqb c x
  end.

Fixpoint RegExp_test (p : list Atom) (s : string) : bool :=
  match p, s with
  | [], "" => true
  | a :: p', String c s' => atomMatches a c && RegExp_test p' s'
  | _, _ => false
  end.

End JS.

(** ** [main.ts] *)
Module Main.
Import JS.

Inductive Recurrence : Type := none | monthly | yearly.

Definition Recurrence_eqb (a b : Recurrence) : bool :=
  match a, b with
  | none, none | monthly, monthly | yearly, yearly => true
  | _, _ => false
  end.

Record Bill : Type := mkBill {
  id : string;
  name : string;
  amount : float;
  dueDate : string;
  recurrence : Recurrence;
  notes : option string;
  paid : bool;
  createdAt : string;
  updatedAt : string
}.

(** Assignments to one property of a bill object. *)
Definition set_paid (v : bool) (b : Bill) : Bill :=
  mkBill (id b) (name b) (amount b) (dueDate b) (recurrence b) (notes b)
         v (createdAt b) (updatedAt b).
Definition set_updatedAt (v : string) (b : Bill) : Bill :=
  mkBill (id b) (name b) (amount b) (dueDate b) (recurrence b) (notes b)
         (paid b) (createdAt b) v.
Definition set_dueDate (v : string) (b : Bill) : Bill :=
  mkBill (id b) (name b) (amount b) v (recurrence b) (notes b)
         (paid b) (createdAt b) (updatedAt b).

(** What the functions of [main.ts] read from outside the [bills] array:
    the clock, the time zone and date parser of the engine, the dialogs
    and the storage plugin, and the two conversions between numbers and
    text that depend on the engine and its locale. *)
Record Env : Type := mkEnv {
  now : Z;                          (* time value of [new Date()] *)
  LocalTZA : Z;                     (* local offset from UTC, ms *)
  strictDates : bool;               (* see [JS.Date_parse] *)
  randomUUID : string;              (* [crypto.randomUUID()] *)
  confirmAnswer : bool;             (* [confirm(...)] *)
  saveSucceeds : bool;              (* the store plugin accepts the write *)
  StringToNumber : string -> float; (* [Number(v)] *)
  toLocaleCurrency : float -> string (* [n.toLocaleString(.., USD)] *)
}.

(** The form fields read by [validateBillForm] and [upsertBillFromForm]. *)
Record Form : Type := mkForm {
  idEl : string;
  nameEl : string;
  amountEl : string;
  dueEl : string;
  recurrenceEl : Recurrence;
  notesEl : string
}.

Definition uid (e : Env) : string := randomUUID e.

Definition parseMoney (e : Env) (v : string) : float :=
  let n := StringToNumber e v in
  if Number_isFinite n then Math_max 0%float n else 0%float.

Definition fmtMoney (e : Env) (n : float) : string := toLocaleCurrency e n.

Definition daysUntil (e : Env) (dateStr : string) : num :=
  let today := setHours0 (LocalTZA e) (Some (now e)) in
  let d := setHours0 (LocalTZA e) (Date_parse (strictDates e) dateStr) in
  let diff := num_sub (getTime d) (getTime today) in
  Math_round_div diff (1000 * 60 * 60 * 24).

Definition nextRecurringDate (e : Env) (dateStr : string) (r : Recurrence)
  : Completion string :=
  match r with
  | none => Returned dateStr
  | _ =>
      let d := Date_parse (strictDates e) dateStr in
      let d :=
        match r with
        | monthly =>
            setMonth (LocalTZA e) d (num_add (getMonth (LocalTZA e) d) (Some 1))
        | yearly =>
            setFullYear (LocalTZA e) d
                        (num_add (getFullYear (LocalTZA e) d) (Some 1))
        | none => d
        end in
      match toISOString d with
      | Returned s => Returned (slice0 10 s)
      | Thrown err => Thrown err
      end
  end.

(** [save()]: its result and the message it shows when the write fails. *)
Definition save (e : Env) : bool * list string :=
  if saveSucceeds e then (true, [])
  else (false, ["Failed to save bills. Changes may be lost."]).

(** *** [render] *)

(** The callback of [bills.filter] in [render]; [q] is the lower-cased
    search text and [status] the value of the filter select. *)
Definition renderFilter (e : Env) (q status : string) (b : Bill) : bool :=
  let matches :=
    includes (toLowerCase (name b)) q
    || includes (toLowerCase (default "" (notes b))) q in
  if negb matches then false
  else
    let d := daysUntil e (dueDate b) in
    if String.eqb status "due"
    then negb (paid b) && num_geb d (Some 0) && num_leb d (Some 7)
    else if String.eqb status "overdue"
    then negb (paid b) && num_ltb d (Some 0)
    else if String.eqb status "paid" then paid b
    else if String.eqb status "unpaid" then negb (paid b)
    else true.

Definition dueClass (e : Env) (b : Bill) : string :=
  let d := daysUntil e (dueDate b) in
  if paid b then "paid"
  else if num_ltb d (Some 0) then "overdue"
  else if num_leb d (Some 7) then "due"
  else "ok".

(** What [render] puts on the page: one row per visible bill with its
    urgency class, the bill count and the unpaid total. *)
Record View : Type := mkView {
  rows : list (Bill * string);
  count : nat;
  total : float
}.

Definition render (e : Env) (searchEl filterEl : string) (bills : list Bill)
  : View :=
  let q := toLowerCase searchEl in
  let status := filterEl in
  let filtered := List.filter (renderFilter e q status) bills in
  let total :=
    fold_left (fun total b =>
                 if negb (paid b) then PrimFloat.add total (amount b)
                 else total)
              filtered 0%float in
  mkView (map (fun b => (b, dueClass e b)) filtered)
         (List.length filtered) total.

(** *** [maybeNotifyDue] *)

Record Notification : Type := mkNotification {
  title : string;
  body : string
}.

Definition dueNowFilter (e : Env) (b : Bill) : bool :=
  if paid b then false
  else
    let days := daysUntil e (dueDate b) in
    num_leb days (Some 0) && num_geb days (Some (-3)).

Definition notifyLine (e : Env) (b : Bill) : string :=
  let days := daysUntil e (dueDate b) in
  let dueText :=
    if num_eqb days (Some 0) then "today"
    else Number_toString (num_neg days) ++ "d overdue" in
  name b ++ " (" ++ fmtMoney e (amount b) ++ ") " ++ dueText.

Definition newline : string := String (ascii_of_nat 10) "".

Definition dueNow (e : Env) (bills : list Bill) : list Bill :=
  List.filter (dueNowFilter e) bills.

(** The notification handed to [sendNotification], if any; [granted] is
    the result of [ensureNotifPermission]. *)
Definition maybeNotifyDue (e : Env) (granted : bool) (bills : list Bill)
  : option Notification :=
  if negb granted then None
  else
    let dueNow := dueNow e bills in
    if (List.length dueNow =? 0)%nat then None
    else
      let body := join newline (map (notifyLine e) (take 4 dueNow)) in
      Some (mkNotification
              (Number_toString (Some (Z.of_nat (List.length dueNow)))
               ++ " Bill" ++ (if (1 <? List.length dueNow)%nat then "s" else "")
               ++ " Due")
              body).

(** *** Validation and upsert *)

(** [/^\d{4}-\d{2}-\d{2}$/] *)
Definition dateRegex : list Atom :=
  [AnyDigit; AnyDigit; AnyDigit; AnyDigit; Lit "-";
   AnyDigit; AnyDigit; Lit "-"; AnyDigit; AnyDigit].

Definition validateBillForm (e : Env) (f : Form) : option string :=
  let name := trim (nameEl f) in
  let amount := parseMoney e (amountEl f) in
  let dueDate := dueEl f in
  if String.eqb name "" then Some "Bill name is required"
  else if PrimFloat.leb amount 0%float then Some "Amount must be greater than 0"
  else if String.eqb dueDate "" then Some "Due date is required"
  else if negb (RegExp_test dateRegex dueDate) then Some "Invalid due date format"
  else None.

(** The state of the page after a handler has run: the [bills] array and
    the messages passed to [showError]. *)
Record Outcome : Type := mkOutcome {
  store : list Bill;
  shown : list string
}.

Definition hasId (i : string) (b : Bill) : bool := String.eqb (id b) i.

(** The id the submitted record gets: [idEl.value || uid()]. *)
Definition formId (e : Env) (f : Form) : string :=
  if String.eqb (idEl f) "" then uid e else idEl f.

(** The record built from the form; [old] is [bills[existingIdx]] when the
    id exists. *)
Definition formRecord (e : Env) (f : Form) (old : option Bill) : Bill :=
  let now := isoString (now e) in
  let notes := trim (notesEl f) in
  mkBill (formId e f)
         (trim (nameEl f))
         (parseMoney e (amountEl f))
         (dueEl f)
         (recurrenceEl f)
         (if String.eqb notes "" then None else Some notes)
         (match old with Some o => paid o | None => false end)
         (match old with Some o => createdAt o | None => now end)
         now.

Definition upsertBillFromForm (e : Env) (f : Form) (bills : list Bill)
  : bool * Outcome :=
  match validateBillForm e f with
  | Some validationError => (false, mkOutcome bills [validationError])
  | None =>
      let existingIdx := findIndex (hasId (formId e f)) bills in
      if 0 <=? existingIdx then
        match bills !! Z.to_nat existingIdx with
        | Some old =>
            (true, mkOutcome
                     (<[Z.to_nat existingIdx := formRecord e f (Some old)]> bills)
                     [])
        | None =>
            (* reading a property of [undefined] throws; the catch block *)
            (false, mkOutcome bills ["Failed to save bill"])
        end
      else (true, mkOutcome (bills ++ [formRecord e f None])%list [])
  end.

(** *** The click handler of the bill list *)

(** The [toggle-paid] branch on the bill [b] found at index [idx].  The
    assignments go to the object stored in the array, so what was written
    before [nextRecurringDate] throws stays written. *)
Definition togglePaid (e : Env) (idx : nat) (b : Bill) (bills : list Bill)
  : Outcome :=
  let b1 := set_updatedAt (isoString (now e)) (set_paid (negb (paid b)) b) in
  if paid b1 && negb (Recurrence_eqb (recurrence b1) none) then
    match nextRecurringDate e (dueDate b1) (recurrence b1) with
    | Returned next =>
        let b2 := set_paid false (set_dueDate next b1) in
        mkOutcome (<[idx := b2]> bills) (snd (save e))
    | Thrown _ =>
        mkOutcome (<[idx := b1]> bills) ["Failed to toggle-paid bill"]
    end
  else mkOutcome (<[idx := b1]> bills) (snd (save e)).

(** The [delete] branch. *)
Definition deleteBill (e : Env) (idx : nat) (bills : list Bill) : Outcome :=
  if confirmAnswer e then mkOutcome (delete idx bills) (snd (save e))
  else mkOutcome bills [].

(** [billList.addEventListener("click", ...)]; [dataId] and [dataAction]
    are the attributes of the button (the empty string when missing). *)
Definition billListClick (e : Env) (dataId dataAction : string)
  (bills : list Bill) : Outcome :=
  if String.eqb dataId "" || String.eqb dataAction "" then mkOutcome bills []
  else
    let idx := findIndex (hasId dataId) bills in
    if idx <? 0 then mkOutcome bills []
    else
      match bills !! Z.to_nat idx with
      | Some b =>
          if String.eqb dataAction "edit" then mkOutcome bills []
          else if String.eqb dataAction "delete"
          then deleteBill e (Z.to_nat idx) bills
          else if String.eqb dataAction "toggle-paid"
          then togglePaid e (Z.to_nat idx) b bills
          else mkOutcome bills []
      | None =>
          (* [b] is [undefined]: each branch reads a property of it *)
          if String.eqb dataAction "edit" || String.eqb dataAction "delete"
             || String.eqb dataAction "toggle-paid"
          then mkOutcome bills ["Failed to " ++ dataAction ++ " bill"]
          else mkOutcome bills []
      end.

(** *** The store as a transition system *)

Inductive Op : Type :=
| Upsert (f : Form)
| Delete (i : string)
| TogglePaid (i : string).

Definition step (e : Env) (op : Op) (bills : list Bill) : list Bill :=
  match op with
  | Upsert f => store (snd (upsertBillFromForm e f bills))
  | Delete i => store (billListClick e i "delete" bills)
  | TogglePaid i => store (billListClick e i "toggle-paid" bills)
  end.

Inductive reachable : list Bill -> Prop :=
| reachable_empty : reachable []
| reachable_step e op bills :
    reachable bills -> reachable (step e op bills).

(** Side conditions under which a step cannot leave a recurring bill paid:
    an edit of a paid bill keeps it one-off, and the next occurrence of a
    toggled recurring bill can be computed. *)
Definition editKeepsPaidOneOff (e : Env) (f : Form) (bills : list Bill)
  : Prop :=
  forall old, old ∈ bills -> id old = formId e f -> paid old = true ->
              recurrenceEl f = none.

Definition canRoll (e : Env) (i : string) (bills : list Bill) : Prop :=
  forall b, b ∈ bills -> id b = i -> paid b = false -> recurrence b <> none ->
            exists next,
              nextRecurringDate e (dueDate b) (recurrence b) = Returned next.

Definition guard (e : Env) (op : Op) (bills : list Bill) : Prop :=
  match op with
  | Upsert f => editKeepsPaidOneOff e f bills
  | Delete _ => True
  | TogglePaid i => canRoll e i bills
  end.

Inductive reachableGuarded : list Bill -> Prop :=
| reachableGuarded_empty : reachableGuarded []
| reachableGuarded_step e op bills :
    reachableGuarded bills -> guard e op bills ->
    reachableGuarded (step e op bills).

End Main.

(** ** The view and the selection in the words of the specification *)
Module Spec.
Import JS Main.

Definition occursIn (q s : string) : Prop :=
  exists pre post, s = pre ++ q ++ post.

(** Step 1 of [computeView]: the lower-cased name or notes (the empty
    string when absent) contains the lower-cased query. *)
Definition textMatch (query : string) (b : Bill) : Prop :=
  occursIn (toLowerCase query) (toLowerCase (name b))
  \/ occursIn (toLowerCase query) (toLowerCase (default "" (notes b))).

(** Step 2 of [computeView]: the status predicate; any filter other than
    the four named ones restricts nothing. *)
Definition statusMatch (e : Env) (statusFilter : string) (b : Bill) : Prop :=
  (statusFilter = "due" ->
   paid b = false
   /\ exists d, daysUntil e (dueDate b) = Some d /\ 0 <= d <= 7)
  /\ (statusFilter = "overdue" ->
      paid b = false /\ exists d, daysUntil e (dueDate b) = Some d /\ d < 0)
  /\ (statusFilter = "paid" -> paid b = true)
  /\ (statusFilter = "unpaid" -> paid b = false).

(** [selectDue]: unpaid and due today or at most three days ago. *)
Definition dueReminder (e : Env) (b : Bill) : Prop :=
  paid b = false
  /\ exists d, daysUntil e (dueDate b) = Some d /\ -3 <= d <= 0.

(** The text after the amount in a reminder line, for the day counts
    -3..0 of a selected bill. *)
Definition dueText (d : Z) : string :=
  if d =? 0 then "today"
  else if d =? -1 then "1d overdue"
  else if d =? -2 then "2d overdue"
  else "3d overdue".

(** The 4-2-2 digit shape [dddd-dd-dd]. *)
Definition isDate422 (s : string) : Prop :=
  exists y1 y2 y3 y4 m1 m2 d1 d2 : ascii,
    s = String y1 (String y2 (String y3 (String y4 (String "-"
          (String m1 (String m2 (String "-" (String d1 (String d2 "")))))))))
    /\ isDigit y1 = true /\ isDigit y2 = true /\ isDigit y3 = true
    /\ isDigit y4 = true /\ isDigit m1 = true /\ isDigit m2 = true
    /\ isDigit d1 = true /\ isDigit d2 = true.

(** A string of that shape whose fields are a month 01-12 and a day of
    that month. *)
Definition isCalendarDate (s : string) : Prop :=
  match dateOnlyFields s with
  | Some (y, m, d) => 1 <= m <= 12 /\ 1 <= d <= DaysInMonth y m
  | None => False
  end.

(** A handler reports an error when it shows a message. *)
Definition reportsError (r : Outcome) : Prop := shown r <> [].

(** A recurring bill stored as paid. *)
Definition paidRecurring (b : Bill) : Prop :=
  recurrence b <> none /\ paid b = true.

End Spec.

(** ** Sample environments and bills, used to run the definitions *)
Module Samples.
Import JS Main.

(** A stand-in for [Number(v)] on the strings used below: unsigned or
    negated decimal integers, the empty string being 0 and anything else
    NaN. *)
Fixpoint allDigits (s : string) : bool :=
  match s with
  | "" => true
  | String c r => isDigit c && allDigits r
  end.

Fixpoint digitsValue (acc : Z) (s : string) : Z :=
  match s with
  | "" => acc
  | String c r => digitsValue (10 * acc + digitValue c) r
  end.

Definition floatOfZ (v : Z) : float := PrimFloat.of_uint63 (Uint63.of_Z v).

Definition decimalNumber (s : string) : float :=
  match s with
  | "" => 0%float
  | String "-" (String c r) =>
      if allDigits (String c r)
      then PrimFloat.opp (floatOfZ (digitsValue 0 (String c r)))
      else PrimFloat.nan
  | _ => if allDigits s then floatOfZ (digitsValue 0 s) else PrimFloat.nan
  end.

(** A stand-in for the currency formatting of the locale. *)
Definition dollars (n : float) : string :=
  if PrimFloat.eqb n 1200%float then "$1,200.00"
  else if PrimFloat.eqb n 100%float then "$100.00"
  else if PrimFloat.eqb n 50%float then "$50.00"
  else "$0.00".

(** An engine in UTC whose clock shows [t]. *)
Definition utc (t : Z) : Env :=
  mkEnv t 0 false "00000000-0000-4000-8000-000000000000" true true
        decimalNumber dollars.

(** The same five hours west of UTC. *)
Definition west (t : Z) : Env :=
  mkEnv t (-18000000) false "00000000-0000-4000-8000-000000000000" true true
        decimalNumber dollars.


(** 2024-06-01T09:30:00Z and 2024-06-10T09:30:00Z *)
Definition june1 : Z := 1717234200000.
Definition june10 : Z := 1718011800000.

Definition bill (i n : string) (a : float) (due : string) (r : Recurrence)
  (p : bool) : Bill :=
  mkBill i n a due r None p "2024-05-01T00:00:00.000Z" "2024-05-01T00:00:00.000Z".

Definition form (i n a due : string) (r : Recurrence) : Form :=
  mkForm i n a due r "".

End Samples.

(** ** More of [main.ts]: escaping, the form, the permission check *)
Module Page.
Import JS Main.

(** [s.replace(/c/g, by)] for a pattern that is one literal character. *)
Fixpoint replaceAll (c : ascii) (by_ : string) (s : string) : string :=
  match s with
  | "" => ""
  | String x r =>
      if Ascii.eqb x c then by_ ++ replaceAll c by_ r
      else String x (replaceAll c by_ r)
  end.

(** The double-quote character. *)
Definition dquote : ascii := "034"%char.

Definition escapeHtml (unsafe : string) : string :=
  replaceAll "'" "&#039;"
    (replaceAll dquote "&quot;"
       (replaceAll ">" "&gt;"
          (replaceAll "<" "&lt;"
             (replaceAll "&" "&amp;" unsafe)))).

(** The text in parentheses after the due date of a row of [render]. *)
Definition dueAgo (d : num) : string :=
  if num_eqb d (Some 0) then "today"
  else if num_ltb (Some 0) d then Number_toString d ++ "d"
  else Number_toString (num_neg d) ++ "d ago".

Definition resetForm (e : Env) : Form :=
  mkForm "" "" "" (slice0 10 (isoString (now e))) monthly "".

(** [fillForm]; [toString] is [String(n)] of the engine. *)
Definition fillForm (toString : float -> string) (b : Bill) : Form :=
  mkForm (id b) (name b) (toString (amount b)) (dueDate b) (recurrence b)
         (default "" (notes b)).

(** [ensureNotifPermission]: the two plugin calls either return or throw. *)
Definition ensureNotifPermission (isPermissionGranted : Completion bool)
  (requestPermission : Completion string) : bool :=
  match isPermissionGranted with
  | Thrown _ => false
  | Returned true => true
  | Returned false =>
      match requestPermission with
      | Thrown _ => false
      | Returned permission => String.eqb permission "granted"
      end
  end.

End Page.

(** ** More of the specification side *)
Module PageSpec.
Import JS Main Spec Page.

(** The characters that [escapeHtml] replaces, and what replaces them. *)
Definition isMarkup (c : ascii) : bool :=
  Ascii.eqb c "&" || Ascii.eqb c "<" || Ascii.eqb c ">"
  || Ascii.eqb c dquote || Ascii.eqb c "'".

Definition entities : list string :=
  ["&amp;"; "&lt;"; "&gt;"; "&quot;"; "&#039;"].

Definition escapeUnit (c : ascii) : string :=
  if Ascii.eqb c "&" then "&amp;"
  else if Ascii.eqb c "<" then "&lt;"
  else if Ascii.eqb c ">" then "&gt;"
  else if Ascii.eqb c dquote then "&quot;"
  else if Ascii.eqb c "'" then "&#039;"
  else String c "".

(** Text made of ordinary characters and the five entities. *)
Inductive Escaped : string -> Prop :=
| Escaped_end : Escaped ""
| Escaped_plain c r : isMarkup c = false -> Escaped r -> Escaped (String c r)
| Escaped_entity ent r : In ent entities -> Escaped r -> Escaped (ent ++ r).

(** What validation and [parseMoney] establish of a stored bill: a
    non-empty trimmed name, a finite amount above zero, and notes that are
    absent or non-empty and trimmed. *)
Definition wellFormed (b : Bill) : Prop :=
  name b <> "" /\ trim (name b) = name b
  /\ Number_isFinite (amount b) = true
  /\ PrimFloat.ltb 0 (amount b) = true
  /\ PrimFloat.leb (amount b) 0 = false
  /\ match notes b with
     | None => True
     | Some n => n <> "" /\ trim n = n
     end.

(** The fields of a bill that only an edit may change, and the fields
    that nothing changes. *)
Definition sameIdentity (b b' : Bill) : Prop :=
  id b' = id b /\ name b' = name b /\ amount b' = amount b
  /\ recurrence b' = recurrence b /\ notes b' = notes b
  /\ createdAt b' = createdAt b.

(** The date part of an ISO string. *)
Definition isoDate (y m d : Z) : string :=
  padDigits 4 y ++ "-" ++ padDigits 2 m ++ "-" ++ padDigits 2 d.

(** The month after month [m] (1-12) of year [y]. *)
Definition nextMonth (y m : Z) : Z * Z :=
  if m =? 12 then (y + 1, 1) else (y, m + 1).

(** Day [d] of the next month; when that month is shorter, the days
    beyond its end are counted into the month after it. *)
Definition monthlyNext (y m d : Z) : Z * Z * Z :=
  let (y1, m1) := nextMonth y m in
  if d <=? DaysInMonth y1 m1 then (y1, m1, d)
  else let (y2, m2) := nextMonth y1 m1 in (y2, m2, d - DaysInMonth y1 m1).

(** The same month and day of the next year; 29 February becomes
    1 March. *)
Definition yearlyNext (y m d : Z) : Z * Z * Z :=
  if (m =? 2) && (d =? 29) then (y + 1, 3, 1) else (y + 1, m, d).

(** The calendar date before a calendar date. *)
Definition dayBefore (y m d : Z) : Z * Z * Z :=
  if 1 <? d then (y, m, d - 1)
  else if 1 <? m then (y, m - 1, DaysInMonth y (m - 1))
  else (y - 1, 12, 31).

End PageSpec.

(** ** A sample [String(n)] *)
Module PageSamples.

(** A stand-in for [String(n)] on the amounts used in the samples. *)
Definition plainString (n : float) : string :=
  if PrimFloat.eqb n 1200%float then "1200"
  else if PrimFloat.eqb n 100%float then "100"
  else if PrimFloat.eqb n 50%float then "50"
  else "0".

End PageSamples.

(** ** Time zones whose offset changes *)
Module TimeZone.
Import JS Main.

(** A time zone as the [Date] methods see it (the abstract operations
    LocalTime and UTC of ECMA-262): [LocalTime(t)] adds the offset in force at the time value
    [t], here [offsetAt t], and [UTC(l)] subtracts the offset the engine
    takes for the local time [l], here [offsetOfLocal l] (where the clocks
    change, a local time is met twice or not at all, and the engine
    settles on one of the two offsets).  Both are in milliseconds. *)
Record Zone : Type := mkZone {
  offsetAt : Z -> Z;
  offsetOfLocal : Z -> Z
}.

(** A zone without changes, as in [JS.LocalTime]. *)
Definition fixedZone (tza : Z) : Zone := mkZone (fun _ => tza) (fun _ => tza).

Section Zone.
Variable z : Zone.

Definition LocalTime (t : Z) : Z := t + offsetAt z t.
Definition UTC (t : Z) : Z := t - offsetOfLocal z t.

Definition getMonth (d : Date) : num :=
  option_map (fun t => MonthFromTime (LocalTime t)) d.

Definition getFullYear (d : Date) : num :=
  option_map (fun t => YearFromTime (LocalTime t)) d.

(** [d.setMonth(m)] *)
Definition setMonth (d : Date) (m : num) : Date :=
  match d, m with
  | Some t, Some m =>
      let lt := LocalTime t in
      TimeClip (UTC (MakeDate (MakeDay (YearFromTime lt) m (DateFromTime lt))
                              (TimeWithinDay lt)))
  | _, _ => None
  end.

(** [d.setFullYear(y)]: an invalid date is first reset to +0. *)
Definition setFullYear (d : Date) (y : num) : Date :=
  match y with
  | None => None
  | Some y =>
      let lt := match d with Some t => LocalTime t | None => 0 end in
      TimeClip (UTC (MakeDate (MakeDay y (MonthFromTime lt) (DateFromTime lt))
                              (TimeWithinDay lt)))
  end.
End Zone.

(** [nextRecurringDate] of [main.ts] in the zone [z]. *)
Definition nextRecurringDate (z : Zone) (strict : bool) (dateStr : string)
  (r : Recurrence) : Completion string :=
  match r with
  | none => Returned dateStr
  | _ =>
      let d := Date_parse strict dateStr in
      let d :=
        match r with
        | monthly => setMonth z d (num_add (getMonth z d) (Some 1))
        | yearly => setFullYear z d (num_add (getFullYear z d) (Some 1))
        | none => d
        end in
      match toISOString d with
      | Returned s => Returned (slice0 10 s)
      | Thrown err => Thrown err
      end
  end.

(** Zones with daylight saving: the offset is [std], and one hour more
    during the periods given by their first and last time value.  The
    local hour skipped at the start of a period is read with the offset
    before it, the local hour met twice at its end with the offset of the
    period. *)
Definition inPeriod (periods : list (Z * Z)) (shift t : Z) : bool :=
  existsb (fun p => (fst p + shift <=? t) && (t <? snd p + shift)) periods.

Definition summerTime (std : Z) (periods : list (Z * Z)) : Zone :=
  mkZone (fun t => if inPeriod periods 0 t then std + msPerHour else std)
         (fun l => if inPeriod periods (std + msPerHour) l
                   then std + msPerHour else std).

(** Europe/London in 2024 and 2025, America/New_York in 2023 to 2025. *)
Definition london : Zone :=
  summerTime 0 [(1711846800000, 1729990800000);
                (1743296400000, 1761440400000)].

Definition newYork : Zone :=
  summerTime (-18000000) [(1678604400000, 1699164000000);
                          (1710054000000, 1730613600000);
                          (1741503600000, 1762063200000)].

End TimeZone.

(** ** Facts about the ECMAScript fragment *)
Module JSFacts.
Import JS.

(** *** [findIndex] *)

Lemma findIndex_ge {A : Type} (p : A -> bool) (l : list A) :
  -1 <= findIndex p l < Z.of_nat (List.length l).
Proof.
  induction l as [|x r IH]; simpl; [lia|].
  destruct (p x); [lia|].
  destruct (Z.ltb_spec (findIndex p r) 0); lia.
Qed.

Lemma findIndex_absent {A : Type} (p : A -> bool) (l : list A) :
  findIndex p l < 0 <-> Forall (fun x => p x = false) l.
Proof.
  induction l as [|x r IH]; simpl.
  - split; [constructor | lia].
  - destruct (p x) eqn:Hx.
    + split; [lia | intros H; inversion H; congruence].
    + destruct (Z.ltb_spec (findIndex p r) 0) as [Hlt|Hge].
      * split; [intros _; constructor; [assumption | apply IH; assumption] | lia].
      * split; [lia | intros H; inversion H; subst].
        pose proof (proj2 IH ltac:(assumption)). lia.
Qed.

(** A non-negative result is the first index whose element satisfies [p]. *)
Lemma findIndex_found {A : Type} (p : A -> bool) (l : list A) :
  0 <= findIndex p l ->
  exists x, l !! Z.to_nat (findIndex p l) = Some x /\ p x = true
            /\ Forall (fun y => p y = false) (take (Z.to_nat (findIndex p l)) l).
Proof.
  induction l as [|x r IH]; simpl; [lia|].
  destruct (p x) eqn:Hx.
  - intros _. exists x. simpl. repeat split; [assumption | constructor].
  - destruct (Z.ltb_spec (findIndex p r) 0) as [Hlt|Hge]; [lia|].
    intros _. destruct (IH Hge) as (y & Hy & Hp & Hbefore).
    exists y.
    replace (Z.to_nat (findIndex p r + 1)) with (S (Z.to_nat (findIndex p r)))
      by lia.
    simpl. repeat split; [assumption | assumption |].
    constructor; assumption.
Qed.

Lemma findIndex_present {A : Type} (p : A -> bool) (l : list A) (x : A) :
  x ∈ l -> p x = true -> 0 <= findIndex p l.
Proof.
  intros Hin Hp.
  destruct (Z.ltb_spec (findIndex p l) 0) as [Hlt|]; [|assumption].
  apply findIndex_absent in Hlt.
  rewrite Forall_forall in Hlt. specialize (Hlt x Hin). congruence.
Qed.

(** *** [includes] is the substring relation *)

Lemma prefix_app (q s : string) :
  String.prefix q s = true <-> exists post, s = q ++ post.
Proof.
  revert s. induction q as [|c q IH]; intros s; simpl.
  - split; [intros _; exists s; reflexivity | intros _; destruct s; reflexivity].
  - destruct s as [|d s]; simpl.
    + split; [discriminate | intros [post H]; discriminate].
    + destruct (ascii_dec c d) as [->|Hne].
      * rewrite IH. split; intros [post H]; exists post.
        -- simpl. congruence.
        -- simpl in H. congruence.
      * split; [discriminate | intros [post H]; simpl in H; congruence].
Qed.

Lemma includes_unfold (s q : string) :
  includes s q =
  String.prefix q s
  || match s with "" => false | String _ r => includes r q end.
Proof.
  destruct s as [|c r]; simpl.
  - destruct (String.prefix q ""); reflexivity.
  - destruct (String.prefix q (String c r)); reflexivity.
Qed.

Lemma includes_substring (s q : string) :
  includes s q = true <-> exists pre post, s = pre ++ q ++ post.
Proof.
  induction s as [|c s IH]; rewrite includes_unfold, orb_true_iff, prefix_app.
  - split.
    + intros [[post H]|H]; [exists "", post; assumption | discriminate].
    + intros (pre & post & H). left.
      destruct pre; simpl in H; [eauto | discriminate].
  - rewrite IH. split.
    + intros [[post H]|(pre & post & H)].
      * exists "", post. assumption.
      * exists (String c pre), post. simpl. congruence.
    + intros (pre & post & H). destruct pre as [|d pre]; simpl in H.
      * left. eauto.
      * right. exists pre, post. congruence.
Qed.

Lemma includes_empty (s : string) : includes s "" = true.
Proof. apply includes_substring. exists "", s. reflexivity. Qed.

End JSFacts.

(** ** Facts about dates *)
Module DateFacts.
Import JS Main Spec.

(** *** Ranges *)

Lemma digitValue_range (c : ascii) :
  isDigit c = true -> 0 <= digitValue c <= 9.
Proof.
  unfold isDigit, digitValue. rewrite andb_true_iff, !Z.leb_le. lia.
Qed.

Lemma dateOnlyFields_range (s : string) (y m d : Z) :
  dateOnlyFields s = Some (y, m, d) ->
  0 <= y <= 9999 /\ 0 <= m <= 99 /\ 0 <= d <= 99.
Proof.
  unfold dateOnlyFields.
  destruct s as [|c1 [|c2 [|c3 [|c4 [|c5 [|c6 [|c7 [|c8 [|c9 [|c10 [|c11 s]]]]]]]]]]];
    try discriminate.
  destruct (isDigit c1) eqn:H1; [|discriminate].
  destruct (isDigit c2) eqn:H2; [|discriminate].
  destruct (isDigit c3) eqn:H3; [|discriminate].
  destruct (isDigit c4) eqn:H4; [|discriminate].
  destruct (Ascii.eqb c5 "-"); [|discriminate].
  destruct (isDigit c6) eqn:H6; [|discriminate].
  destruct (isDigit c7) eqn:H7; [|discriminate].
  destruct (Ascii.eqb c8 "-"); [|discriminate].
  destruct (isDigit c9) eqn:H9; [|discriminate].
  destruct (isDigit c10) eqn:H10; [|discriminate].
  simpl. intros [= <- <- <-].
  apply digitValue_range in H1, H2, H3, H4, H6, H7, H9, H10. lia.
Qed.

Lemma DayFromYear_range (y : Z) :
  0 <= y <= 10000 -> -719528 <= DayFromYear y <= 2932897.
Proof. intros H. unfold DayFromYear. Z.div_mod_to_equations. lia. Qed.

Lemma monthStart_range (m l : Z) : 0 <= l <= 1 -> 0 <= monthStart m l <= 335.
Proof.
  intros H. unfold monthStart.
  repeat match goal with |- context [?a =? ?b] => destruct (Z.eqb_spec a b) end; lia.
Qed.

Lemma leapDays_range (y : Z) : 0 <= leapDays y <= 1.
Proof. unfold leapDays. destruct (DaysInYear y =? 366); lia. Qed.

Lemma DaysInMonth_range (y m : Z) : 28 <= DaysInMonth y m <= 31.
Proof.
  unfold DaysInMonth. pose proof (leapDays_range y).
  destruct (m =? 2); [lia|].
  destruct ((m =? 4) || (m =? 6) || (m =? 9) || (m =? 11)); lia.
Qed.

Lemma TimeClip_in_range (t : Z) :
  -8640000000000000 <= t <= 8640000000000000 -> TimeClip t = Some t.
Proof.
  intros H. unfold TimeClip.
  destruct (Z.leb_spec (Z.abs t) 8640000000000000); [reflexivity | lia].
Qed.

(** The day number of a calendar date of the years 0..9999. *)
Lemma MakeDay_range (y m d : Z) :
  0 <= y <= 9999 -> 0 <= m <= 11 -> 1 <= d <= 31 ->
  -719528 <= MakeDay y m d <= 2933263.
Proof.
  intros Hy Hm Hd. unfold MakeDay. cbv zeta.
  replace (m / 12) with 0 by (Z.div_mod_to_equations; lia).
  rewrite Z.add_0_r.
  pose proof (DayFromYear_range y ltac:(lia)).
  pose proof (monthStart_range (m mod 12) (leapDays y) (leapDays_range y)).
  lia.
Qed.

Lemma Date_parse_calendar (strict : bool) (s : string) :
  isCalendarDate s ->
  exists y m d,
    dateOnlyFields s = Some (y, m, d)
    /\ 0 <= y <= 9999 /\ 1 <= m <= 12 /\ 1 <= d <= DaysInMonth y m
    /\ Date_parse strict s = Some (MakeDay y (m - 1) d * msPerDay).
Proof.
  unfold isCalendarDate, Date_parse.
  destruct (dateOnlyFields s) as [[[y m] d]|] eqn:Hf; [|contradiction].
  intros (Hm & Hd). exists y, m, d.
  pose proof (dateOnlyFields_range s y m d Hf) as (Hy & _ & _).
  pose proof (DaysInMonth_range y m).
  split; [reflexivity|]. split; [exact Hy|]. split; [exact Hm|].
  split; [exact Hd|].
  assert ((1 <=? m) && (m <=? 12) && (1 <=? d)
          && (d <=? (if strict then DaysInMonth y m else 31)) = true) as ->.
  { rewrite !andb_true_iff, !Z.leb_le. destruct strict; lia. }
  unfold MakeDate. rewrite Z.add_0_r.
  apply TimeClip_in_range.
  pose proof (MakeDay_range y (m - 1) d Hy ltac:(lia) ltac:(lia)).
  unfold msPerDay. lia.
Qed.

(** Local midnight of a time value whose day is not the first of the
    [Date] range. *)
Lemma setHours0_value (tza t : Z) :
  -8640000000000000 + msPerDay <= t <= 8640000000000000 ->
  setHours0 tza (Some t) = Some (Day (t + tza) * msPerDay - tza).
Proof.
  intros H. unfold setHours0, LocalTime, UTC, MakeDate, MakeTime. cbv zeta.
  replace (Day (t + tza) * msPerDay + (0 * msPerHour + 0 * msPerMinute + 0 * msPerSecond + 0) - tza)
    with (Day (t + tza) * msPerDay - tza) by lia.
  apply TimeClip_in_range.
  unfold Day, msPerDay in *. Z.div_mod_to_equations. lia.
Qed.

Lemma Math_round_div_days (k : Z) :
  Math_round_div (Some (k * msPerDay)) (1000 * 60 * 60 * 24) = Some k.
Proof.
  unfold Math_round_div, msPerDay. simpl. f_equal.
  Z.div_mod_to_equations. lia.
Qed.

(** With a clock inside the [Date] range, the day count to a parsed date is
    the difference of the two local day numbers. *)
Lemma daysUntil_value (e : Env) (s : string) (t : Z) :
  0 <= now e <= 8640000000000000 ->
  Date_parse (strictDates e) s = Some t ->
  -8640000000000000 + msPerDay <= t <= 8640000000000000 ->
  daysUntil e s = Some (Day (t + LocalTZA e) - Day (now e + LocalTZA e)).
Proof.
  intros Hnow Hp Ht. unfold daysUntil. cbv zeta. rewrite Hp.
  rewrite !setHours0_value by (unfold msPerDay in *; lia).
  unfold getTime, num_sub.
  replace (Day (t + LocalTZA e) * msPerDay - LocalTZA e
           - (Day (now e + LocalTZA e) * msPerDay - LocalTZA e))
    with ((Day (t + LocalTZA e) - Day (now e + LocalTZA e)) * msPerDay) by lia.
  apply Math_round_div_days.
Qed.

Lemma daysUntil_calendar (e : Env) (s : string) :
  0 <= now e <= 8640000000000000 -> isCalendarDate s ->
  exists d, daysUntil e s = Some d.
Proof.
  intros Hnow Hc.
  destruct (Date_parse_calendar (strictDates e) s Hc)
    as (y & m & d & _ & Hy & Hm & Hd & Hp).
  pose proof (DaysInMonth_range y m).
  pose proof (MakeDay_range y (m - 1) d Hy ltac:(lia) ltac:(lia)).
  eexists. apply (daysUntil_value e s _ Hnow Hp).
  unfold msPerDay. lia.
Qed.

Lemma daysUntil_unparsed (e : Env) (s : string) :
  Date_parse (strictDates e) s = None -> daysUntil e s = NaN.
Proof. intros H. unfold daysUntil. cbv zeta. rewrite H. reflexivity. Qed.

(** *** Calendar arithmetic *)

Lemma DayFromYear_succ (y : Z) : DayFromYear (y + 1) = DayFromYear y + DaysInYear y.
Proof.
  unfold DayFromYear, DaysInYear.
  destruct (Z.eqb_spec (y mod 4) 0); simpl;
    [destruct (Z.eqb_spec (y mod 100) 0); simpl;
       [destruct (Z.eqb_spec (y mod 400) 0); simpl|]|];
    Z.div_mod_to_equations; lia.
Qed.

Lemma DaysInYear_leapDays (y : Z) : DaysInYear y = 365 + leapDays y.
Proof.
  unfold leapDays, DaysInYear.
  destruct (negb (y mod 4 =? 0)); [reflexivity|].
  destruct (negb (y mod 100 =? 0)); [reflexivity|].
  destruct (negb (y mod 400 =? 0)); reflexivity.
Qed.

Lemma monthOfDay_range (d l : Z) : 0 <= monthOfDay d l <= 11.
Proof.
  unfold monthOfDay.
  repeat match goal with |- context [?a <? ?b] => destruct (a <? b) end; lia.
Qed.

(** The time value splits into year, month and date. *)
Lemma Day_decompose (t : Z) :
  Day t = DayFromYear (YearFromTime t)
          + monthStart (MonthFromTime t) (InLeapYear t) + DateFromTime t - 1.
Proof. unfold DateFromTime, DayWithinYear. lia. Qed.

Lemma monthStart_next (m l : Z) :
  0 <= m <= 10 -> 0 <= l <= 1 ->
  28 <= monthStart (m + 1) l - monthStart m l <= 31.
Proof.
  intros Hm Hl.
  assert (m = 0 \/ m = 1 \/ m = 2 \/ m = 3 \/ m = 4 \/ m = 5 \/ m = 6 \/ m = 7
          \/ m = 8 \/ m = 9 \/ m = 10) as H by lia.
  repeat (destruct H as [->|H]); try subst m; unfold monthStart; simpl; lia.
Qed.

(** Moving to the next month keeps the date and adds the length of the
    current month. *)
Lemma MakeDay_next_month (t : Z) :
  exists n, 28 <= n <= 31
            /\ MakeDay (YearFromTime t) (MonthFromTime t + 1) (DateFromTime t)
               = Day t + n.
Proof.
  pose proof (monthOfDay_range (DayWithinYear t) (InLeapYear t)) as Hm.
  fold (MonthFromTime t) in Hm.
  pose proof (leapDays_range (YearFromTime t)) as Hl. fold (InLeapYear t) in Hl.
  pose proof (Day_decompose t) as Hday.
  unfold MakeDay. cbv zeta.
  destruct (Z.eq_dec (MonthFromTime t) 11) as [H11|H11].
  - rewrite H11 in *. change ((11 + 1) / 12) with 1.
    change ((11 + 1) mod 12) with 0.
    exists 31. split; [lia|].
    rewrite DayFromYear_succ, DaysInYear_leapDays.
    fold (InLeapYear t). unfold monthStart in *. simpl in *. lia.
  - replace ((MonthFromTime t + 1) / 12) with 0 by (Z.div_mod_to_equations; lia).
    replace ((MonthFromTime t + 1) mod 12) with (MonthFromTime t + 1)
      by (Z.div_mod_to_equations; lia).
    rewrite Z.add_0_r. fold (InLeapYear t).
    pose proof (monthStart_next (MonthFromTime t) (InLeapYear t) ltac:(lia) Hl).
    exists (monthStart (MonthFromTime t + 1) (InLeapYear t)
            - monthStart (MonthFromTime t) (InLeapYear t)).
    split; lia.
Qed.

Lemma monthStart_leap (m l l' : Z) :
  0 <= l <= 1 -> 0 <= l' <= 1 -> -1 <= monthStart m l' - monthStart m l <= 1.
Proof.
  intros Hl Hl'. unfold monthStart.
  repeat match goal with |- context [?a =? ?b] => destruct (a =? b) end; lia.
Qed.

(** Moving to the next year keeps month and date. *)
Lemma MakeDay_next_year (t : Z) :
  exists n, 364 <= n <= 367
            /\ MakeDay (YearFromTime t + 1) (MonthFromTime t) (DateFromTime t)
               = Day t + n.
Proof.
  pose proof (monthOfDay_range (DayWithinYear t) (InLeapYear t)) as Hm.
  fold (MonthFromTime t) in Hm.
  pose proof (leapDays_range (YearFromTime t)) as Hl. fold (InLeapYear t) in Hl.
  pose proof (leapDays_range (YearFromTime t + 1)) as Hl'.
  pose proof (Day_decompose t) as Hday.
  unfold MakeDay. cbv zeta.
  replace (MonthFromTime t / 12) with 0 by (Z.div_mod_to_equations; lia).
  replace (MonthFromTime t mod 12) with (MonthFromTime t)
    by (Z.div_mod_to_equations; lia).
  rewrite Z.add_0_r, DayFromYear_succ, DaysInYear_leapDays.
  fold (InLeapYear t).
  pose proof (monthStart_leap (MonthFromTime t) (InLeapYear t)
                (leapDays (YearFromTime t + 1)) Hl Hl').
  exists (365 + InLeapYear t
          + (monthStart (MonthFromTime t) (leapDays (YearFromTime t + 1))
             - monthStart (MonthFromTime t) (InLeapYear t))).
  split; lia.
Qed.

Lemma Day_TimeWithinDay (t : Z) : Day t * msPerDay + TimeWithinDay t = t.
Proof.
  unfold Day, TimeWithinDay, msPerDay. Z.div_mod_to_equations. lia.
Qed.

(** [d.setMonth(d.getMonth() + 1)] moves a valid date forward by the length
    of its local month, whatever the time zone. *)
Lemma setMonth_next (tza t : Z) :
  -8000000000000000 <= t <= 8000000000000000 ->
  exists n, 28 <= n <= 31
            /\ setMonth tza (Some t) (num_add (getMonth tza (Some t)) (Some 1))
               = Some (t + n * msPerDay).
Proof.
  intros Ht. unfold setMonth, getMonth, num_add. simpl. unfold LocalTime, UTC.
  destruct (MakeDay_next_month (t + tza)) as (n & Hn & ->).
  exists n. split; [exact Hn|].
  pose proof (Day_TimeWithinDay (t + tza)) as Hsplit.
  unfold MakeDate.
  replace ((Day (t + tza) + n) * msPerDay + TimeWithinDay (t + tza) - tza)
    with (t + n * msPerDay) by lia.
  apply TimeClip_in_range. unfold msPerDay. lia.
Qed.

(** [d.setFullYear(d.getFullYear() + 1)] moves a valid date forward by a
    year of 364 to 367 days. *)
Lemma setFullYear_next (tza t : Z) :
  -8000000000000000 <= t <= 8000000000000000 ->
  exists n, 364 <= n <= 367
            /\ setFullYear tza (Some t)
                           (num_add (getFullYear tza (Some t)) (Some 1))
               = Some (t + n * msPerDay).
Proof.
  intros Ht. unfold setFullYear, getFullYear, num_add. simpl.
  unfold LocalTime, UTC.
  destruct (MakeDay_next_year (t + tza)) as (n & Hn & ->).
  exists n. split; [exact Hn|].
  pose proof (Day_TimeWithinDay (t + tza)) as Hsplit.
  unfold MakeDate.
  replace ((Day (t + tza) + n) * msPerDay + TimeWithinDay (t + tza) - tza)
    with (t + n * msPerDay) by lia.
  apply TimeClip_in_range. unfold msPerDay. lia.
Qed.

(** The next occurrence of a parsed date: the ISO date of a time value
    that lies 28 to 367 whole days later. *)
Lemma nextRecurringDate_parsed (e : Env) (s : string) (r : Recurrence) (t : Z) :
  r <> none ->
  Date_parse (strictDates e) s = Some t ->
  -8000000000000000 <= t <= 8000000000000000 ->
  exists n, 28 <= n <= 367
            /\ nextRecurringDate e s r
               = Returned (slice0 10 (isoString (t + n * msPerDay))).
Proof.
  intros Hr Hp Ht. unfold nextRecurringDate. rewrite Hp.
  destruct r; [contradiction| |].
  - destruct (setMonth_next (LocalTZA e) t Ht) as (n & Hn & ->).
    exists n. split; [lia | reflexivity].
  - destruct (setFullYear_next (LocalTZA e) t Ht) as (n & Hn & ->).
    exists n. split; [lia | reflexivity].
Qed.

Lemma nextRecurringDate_unparsed (e : Env) (s : string) (r : Recurrence) :
  r <> none ->
  Date_parse (strictDates e) s = None ->
  nextRecurringDate e s r = Thrown "RangeError: Invalid time value".
Proof.
  intros Hr Hp. unfold nextRecurringDate. rewrite Hp.
  destruct r; [contradiction | reflexivity | reflexivity].
Qed.

Lemma nextRecurringDate_calendar (e : Env) (s : string) (r : Recurrence) :
  r <> none -> isCalendarDate s ->
  exists next, nextRecurringDate e s r = Returned next.
Proof.
  intros Hr Hc.
  destruct (Date_parse_calendar (strictDates e) s Hc)
    as (y & m & d & _ & Hy & Hm & Hd & Hp).
  pose proof (DaysInMonth_range y m).
  pose proof (MakeDay_range y (m - 1) d Hy ltac:(lia) ltac:(lia)).
  destruct (nextRecurringDate_parsed e s r _ Hr Hp) as (n & _ & ->).
  - unfold msPerDay. lia.
  - eauto.
Qed.

(** *** The date part of [toISOString] parses back *)

Lemma YearFromDay_spec (day : Z) :
  DayFromYear (YearFromDay day) <= day < DayFromYear (YearFromDay day + 1).
Proof.
  unfold YearFromDay. cbv zeta.
  destruct (Z.ltb_spec day (DayFromYear (1970 + 400 * day / 146097))).
  - unfold DayFromYear in *. Z.div_mod_to_equations. lia.
  - destruct (Z.leb_spec (DayFromYear (1970 + 400 * day / 146097 + 1)) day).
    + unfold DayFromYear in *. Z.div_mod_to_equations. lia.
    + lia.
Qed.

Lemma DayWithinYear_range (t : Z) :
  0 <= DayWithinYear t < 365 + InLeapYear t.
Proof.
  unfold DayWithinYear, InLeapYear, YearFromTime.
  pose proof (YearFromDay_spec (Day t)) as H.
  rewrite DayFromYear_succ, DaysInYear_leapDays in H. lia.
Qed.

Lemma MonthFromTime_range (t : Z) : 0 <= MonthFromTime t <= 11.
Proof. apply monthOfDay_range. Qed.

Lemma DateFromTime_range (t : Z) :
  1 <= DateFromTime t <= DaysInMonth (YearFromTime t) (MonthFromTime t + 1).
Proof.
  pose proof (DayWithinYear_range t) as Hd.
  pose proof (leapDays_range (YearFromTime t)) as Hl.
  unfold DateFromTime, MonthFromTime, DaysInMonth, InLeapYear in *.
  unfold monthOfDay.
  repeat match goal with
         | |- context [?a <? ?b] => destruct (Z.ltb_spec a b)
         end;
    unfold monthStart; simpl; lia.
Qed.

Lemma digitChar_value (k : Z) :
  0 <= k <= 9 -> isDigit (digitChar k) = true /\ digitValue (digitChar k) = k.
Proof.
  intros H.
  assert (k = 0 \/ k = 1 \/ k = 2 \/ k = 3 \/ k = 4 \/ k = 5 \/ k = 6 \/ k = 7
          \/ k = 8 \/ k = 9) as Hk by lia.
  repeat (destruct Hk as [->|Hk]); try subst k; split; reflexivity.
Qed.

Lemma mod10_digit (v : Z) :
  isDigit (digitChar (v mod 10)) = true
  /\ digitValue (digitChar (v mod 10)) = v mod 10.
Proof. apply digitChar_value. Z.div_mod_to_equations. lia. Qed.

(** The first ten characters of [isoString] for a year in 0..9999. *)
Lemma isoString_date (t : Z) :
  0 <= YearFromTime t <= 9999 ->
  slice0 10 (isoString t)
  = padDigits 4 (YearFromTime t) ++ "-" ++ padDigits 2 (MonthFromTime t + 1)
    ++ "-" ++ padDigits 2 (DateFromTime t).
Proof.
  intros Hy. unfold isoString, isoYear.
  assert ((0 <=? YearFromTime t) && (YearFromTime t <=? 9999) = true) as ->
    by (rewrite andb_true_iff, !Z.leb_le; lia).
  generalize (YearFromTime t) (MonthFromTime t + 1) (DateFromTime t)
             (HourFromTime t) (MinFromTime t) (SecFromTime t) (msFromTime t).
  intros. cbn [padDigits append slice0 substring]. reflexivity.
Qed.

Lemma dateOnlyFields_pad (y m d : Z) :
  0 <= y <= 9999 -> 0 <= m <= 99 -> 0 <= d <= 99 ->
  dateOnlyFields (padDigits 4 y ++ "-" ++ padDigits 2 m ++ "-" ++ padDigits 2 d)
  = Some (y, m, d).
Proof.
  intros Hy Hm Hd. cbn [padDigits append]. unfold dateOnlyFields.
  repeat match goal with
         | |- context [isDigit (digitChar (?v mod 10))] =>
             rewrite (proj1 (mod10_digit v))
         end.
  rewrite !(fun v => proj2 (mod10_digit v)).
  simpl. f_equal. f_equal; [f_equal|]; Z.div_mod_to_equations; lia.
Qed.

(** A midnight-UTC time value of the years 0..9999 is recovered from the
    date part of its ISO string. *)
Theorem Date_parse_isoString (strict : bool) (t : Z) :
  t mod msPerDay = 0 -> 0 <= YearFromTime t <= 9999 ->
  Date_parse strict (slice0 10 (isoString t)) = Some t.
Proof.
  intros Hmid Hy.
  pose proof (MonthFromTime_range t) as Hm.
  pose proof (DateFromTime_range t) as Hd.
  pose proof (DaysInMonth_range (YearFromTime t) (MonthFromTime t + 1)) as Hdim.
  rewrite (isoString_date t Hy). unfold Date_parse.
  rewrite dateOnlyFields_pad by lia.
  assert ((1 <=? MonthFromTime t + 1) && (MonthFromTime t + 1 <=? 12)
          && (1 <=? DateFromTime t)
          && (DateFromTime t
              <=? (if strict
                   then DaysInMonth (YearFromTime t) (MonthFromTime t + 1)
                   else 31)) = true) as ->.
  { rewrite !andb_true_iff, !Z.leb_le. destruct strict; lia. }
  replace (MonthFromTime t + 1 - 1) with (MonthFromTime t) by lia.
  assert (MakeDay (YearFromTime t) (MonthFromTime t) (DateFromTime t) = Day t)
    as ->.
  { unfold MakeDay. cbv zeta.
    replace (MonthFromTime t / 12) with 0 by (Z.div_mod_to_equations; lia).
    replace (MonthFromTime t mod 12) with (MonthFromTime t)
      by (Z.div_mod_to_equations; lia).
    rewrite Z.add_0_r. fold (InLeapYear t).
    pose proof (Day_decompose t). lia. }
  unfold MakeDate. rewrite Z.add_0_r.
  pose proof (Day_TimeWithinDay t) as Hsplit. unfold TimeWithinDay in Hsplit.
  rewrite Hmid, Z.add_0_r in Hsplit. rewrite Hsplit.
  apply TimeClip_in_range.
  pose proof (YearFromDay_spec (Day t)) as Hspec. fold (YearFromTime t) in Hspec.
  pose proof (DayFromYear_range (YearFromTime t) ltac:(lia)).
  pose proof (DayFromYear_range (YearFromTime t + 1) ltac:(lia)).
  unfold msPerDay in *. lia.
Qed.

Lemma DayFromYear_mono (y y' : Z) : y <= y' -> DayFromYear y <= DayFromYear y'.
Proof. intros H. unfold DayFromYear. Z.div_mod_to_equations. lia. Qed.

Lemma YearFromDay_between (day lo hi : Z) :
  DayFromYear lo <= day < DayFromYear hi -> lo <= YearFromDay day < hi.
Proof.
  intros H. pose proof (YearFromDay_spec day) as Hs.
  split.
  - destruct (Z_le_gt_dec lo (YearFromDay day)) as [|Hgt]; [assumption|].
    pose proof (DayFromYear_mono (YearFromDay day + 1) lo ltac:(lia)). lia.
  - destruct (Z_lt_ge_dec (YearFromDay day) hi) as [|Hge]; [assumption|].
    pose proof (DayFromYear_mono hi (YearFromDay day) ltac:(lia)). lia.
Qed.

(** The next occurrence of a calendar date before the year 9998 is again a
    date the engine parses, and it is strictly later. *)
Theorem nextRecurringDate_later (e : Env) (s : string) (r : Recurrence)
  (y m d : Z) :
  r <> none -> isCalendarDate s ->
  dateOnlyFields s = Some (y, m, d) -> y <= 9997 ->
  exists t next t',
    Date_parse (strictDates e) s = Some t
    /\ nextRecurringDate e s r = Returned next
    /\ Date_parse (strictDates e) next = Some t'
    /\ t + 28 * msPerDay <= t' <= t + 367 * msPerDay.
Proof.
  intros Hr Hc Hf Hy97.
  destruct (Date_parse_calendar (strictDates e) s Hc)
    as (y' & m' & d' & Hf' & Hy & Hm & Hd & Hp).
  rewrite Hf in Hf'. injection Hf' as <- <- <-.
  pose proof (DaysInMonth_range y m) as Hdim.
  pose proof (MakeDay_range y (m - 1) d Hy ltac:(lia) ltac:(lia)) as Hrange.
  destruct (nextRecurringDate_parsed e s r _ Hr Hp) as (n & Hn & Hnext);
    [unfold msPerDay; lia|].
  exists (MakeDay y (m - 1) d * msPerDay),
         (slice0 10 (isoString (MakeDay y (m - 1) d * msPerDay + n * msPerDay))),
         (MakeDay y (m - 1) d * msPerDay + n * msPerDay).
  split; [exact Hp|]. split; [exact Hnext|]. split; [|unfold msPerDay; lia].
  apply Date_parse_isoString.
  - unfold msPerDay. Z.div_mod_to_equations. lia.
  - unfold YearFromTime.
    replace (Day (MakeDay y (m - 1) d * msPerDay + n * msPerDay))
      with (MakeDay y (m - 1) d + n)
      by (unfold Day, msPerDay; Z.div_mod_to_equations; lia).
    assert (0 <= YearFromDay (MakeDay y (m - 1) d + n) < 10000); [|lia].
    apply YearFromDay_between.
    unfold MakeDay in *. cbv zeta in *.
    replace ((m - 1) / 12) with 0 in * by (Z.div_mod_to_equations; lia).
    rewrite Z.add_0_r in *.
    pose proof (monthStart_range ((m - 1) mod 12) (leapDays y) (leapDays_range y)).
    pose proof (DayFromYear_mono 0 y ltac:(lia)).
    pose proof (DayFromYear_mono y 9997 ltac:(lia)).
    change (DayFromYear 9997) with 2931802 in *.
    change (DayFromYear 10000) with 2932897.
    change (DayFromYear 0) with (-719528) in *.
    lia.
Qed.

End DateFacts.

(** ** The derived view and the reminder selection *)
Module ViewFacts.
Import JS Main Spec Samples JSFacts DateFacts.

Lemma num_range (d : num) (lo hi : Z) :
  num_geb d (Some lo) && num_leb d (Some hi) = true
  <-> exists v, d = Some v /\ lo <= v <= hi.
Proof.
  destruct d as [v|]; simpl.
  - rewrite andb_true_iff, !Z.leb_le. split.
    + intros H. exists v. split; [reflexivity | lia].
    + intros (w & [= <-] & H). lia.
  - split; [discriminate | intros (v & H & _); discriminate].
Qed.

Lemma num_below (d : num) (hi : Z) :
  num_ltb d (Some hi) = true <-> exists v, d = Some v /\ v < hi.
Proof.
  destruct d as [v|]; simpl.
  - rewrite Z.ltb_lt. split.
    + intros H. exists v. split; [reflexivity | lia].
    + intros (w & [= <-] & H). lia.
  - split; [discriminate | intros (v & H & _); discriminate].
Qed.

Lemma renderFilter_text (e : Env) (query status : string) (b : Bill) :
  includes (toLowerCase (name b)) (toLowerCase query)
  || includes (toLowerCase (default "" (notes b))) (toLowerCase query) = true
  <-> textMatch query b.
Proof.
  unfold textMatch, occursIn.
  rewrite orb_true_iff, !includes_substring. reflexivity.
Qed.

Lemma renderFilter_status (e : Env) (status : string) (b : Bill) :
  (let d := daysUntil e (dueDate b) in
   if String.eqb status "due"
   then negb (paid b) && num_geb d (Some 0) && num_leb d (Some 7)
   else if String.eqb status "overdue"
   then negb (paid b) && num_ltb d (Some 0)
   else if String.eqb status "paid" then paid b
   else if String.eqb status "unpaid" then negb (paid b)
   else true) = true
  <-> statusMatch e status b.
Proof.
  unfold statusMatch. cbv zeta.
  destruct (String.eqb_spec status "due") as [->|Hdue].
  { rewrite <- andb_assoc, andb_true_iff, negb_true_iff, num_range.
    split.
    - intros H. split; [intros _; exact H|].
      split; [discriminate|]. split; discriminate.
    - intros (H & _). exact (H eq_refl). }
  destruct (String.eqb_spec status "overdue") as [->|Hover].
  { rewrite andb_true_iff, negb_true_iff, num_below.
    split.
    - intros H. split; [discriminate|]. split; [intros _; exact H|].
      split; discriminate.
    - intros (_ & H & _). exact (H eq_refl). }
  destruct (String.eqb_spec status "paid") as [->|Hpaid].
  { split.
    - intros H. split; [discriminate|]. split; [discriminate|].
      split; [intros _; exact H | discriminate].
    - intros (_ & _ & H & _). exact (H eq_refl). }
  destruct (String.eqb_spec status "unpaid") as [->|Hunpaid].
  { rewrite negb_true_iff. split.
    - intros H. split; [discriminate|]. split; [discriminate|].
      split; [discriminate | intros _; exact H].
    - intros (_ & _ & _ & H). exact (H eq_refl). }
  split; [|reflexivity].
  intros _. split; [congruence|]. split; [congruence|]. split; congruence.
Qed.

Lemma renderFilter_spec (e : Env) (query status : string) (b : Bill) :
  renderFilter e (toLowerCase query) status b = true
  <-> textMatch query b /\ statusMatch e status b.
Proof.
  unfold renderFilter. cbv zeta.
  rewrite <- (renderFilter_text e query status b).
  rewrite <- (renderFilter_status e status b). cbv zeta.
  destruct (includes (toLowerCase (name b)) (toLowerCase query)
            || includes (toLowerCase (default "" (notes b))) (toLowerCase query));
    simpl.
  - split; [intros H; split; [reflexivity | exact H] | intros [_ H]; exact H].
  - split; [discriminate | intros [H _]; discriminate].
Qed.

(** The running total of [render] is the sum over the unpaid rows. *)
Lemma unpaid_total (l : list Bill) (acc : float) :
  fold_left (fun total b =>
               if negb (paid b) then PrimFloat.add total (amount b) else total)
            l acc
  = fold_left (fun total b => PrimFloat.add total (amount b))
              (List.filter (fun b => negb (paid b)) l) acc.
Proof.
  revert acc. induction l as [|b l IH]; intros acc; simpl; [reflexivity|].
  destruct (negb (paid b)); simpl; apply IH.
Qed.

Lemma filter_sublist {A : Type} (p : A -> bool) (l : list A) :
  List.filter p l `sublist_of` l.
Proof.
  induction l as [|x l IH]; simpl; [constructor|].
  destruct (p x); [apply sublist_skip | apply sublist_cons]; exact IH.
Qed.

Lemma map_fst_pair {A B : Type} (f : A -> B) (l : list A) :
  map fst (map (fun x => (x, f x)) l) = l.
Proof. induction l as [|x l IH]; simpl; [reflexivity | f_equal; exact IH]. Qed.

(** *** The day count and the time zone *)

(** A date string denotes midnight UTC, and [setHours] then moves it to
    the local midnight before it.  At or east of UTC that is the local
    midnight of the same calendar day, and the day count is the difference
    of the calendar days; west of UTC it is the midnight of the day
    before, and the day count is one less. *)
Lemma daysUntil_zone (e : Env) (s : string) (y m d : Z) :
  0 <= now e <= 8640000000000000 ->
  isCalendarDate s -> dateOnlyFields s = Some (y, m, d) ->
  (0 <= LocalTZA e < msPerDay ->
   daysUntil e s = Some (MakeDay y (m - 1) d - Day (LocalTime (LocalTZA e) (now e))))
  /\ (- msPerDay <= LocalTZA e < 0 ->
      daysUntil e s
      = Some (MakeDay y (m - 1) d - 1 - Day (LocalTime (LocalTZA e) (now e)))).
Proof.
  intros Hnow Hc Hf.
  destruct (Date_parse_calendar (strictDates e) s Hc)
    as (y' & m' & d' & Hf' & Hy & Hm & Hd & Hp).
  rewrite Hf in Hf'. injection Hf' as <- <- <-.
  pose proof (DaysInMonth_range y m) as Hdim.
  pose proof (MakeDay_range y (m - 1) d Hy ltac:(lia) ltac:(lia)) as Hrange.
  assert (Hv : daysUntil e s
               = Some (Day (MakeDay y (m - 1) d * msPerDay + LocalTZA e)
                       - Day (now e + LocalTZA e))).
  { apply daysUntil_value; [exact Hnow | exact Hp | unfold msPerDay; lia]. }
  rewrite Hv. unfold LocalTime. split; intros Hz; do 2 f_equal;
    unfold Day, msPerDay in *; Z.div_mod_to_equations; lia.
Qed.

(** The due-soon boundary of the specification, 2024-06-01 against
    2024-06-08 and 2024-06-09, with the clock in UTC and five hours west
    of it. *)
Example daysUntil_boundary_utc :
  daysUntil (utc june1) "2024-06-08" = Some 7
  /\ daysUntil (utc june1) "2024-06-09" = Some 8.
Proof. split; vm_compute; reflexivity. Qed.

Example daysUntil_boundary_west :
  isoString (LocalTime (LocalTZA (west june1)) (now (west june1)))
  = "2024-06-01T04:30:00.000Z"
  /\ daysUntil (west june1) "2024-06-01" = Some (-1)
  /\ daysUntil (west june1) "2024-06-08" = Some 6
  /\ daysUntil (west june1) "2024-06-09" = Some 7.
Proof. repeat split; vm_compute; reflexivity. Qed.

(** The same boundary for every engine at or east of UTC whose local date
    is 2024-06-01: a bill due 2024-06-08 is due-soon, one due 2024-06-09
    is not. *)
Lemma dueClass_boundary_east (e : Env) (b8 b9 : Bill) :
  0 <= now e <= 8640000000000000 -> 0 <= LocalTZA e < msPerDay ->
  Day (LocalTime (LocalTZA e) (now e)) = MakeDay 2024 5 1 ->
  paid b8 = false -> dueDate b8 = "2024-06-08" ->
  paid b9 = false -> dueDate b9 = "2024-06-09" ->
  dueClass e b8 = "due" /\ dueClass e b9 = "ok".
Proof.
  intros Hnow Hz Htoday Hp8 Hd8 Hp9 Hd9.
  unfold dueClass. cbv zeta. rewrite Hp8, Hp9, Hd8, Hd9.
  destruct (daysUntil_zone e "2024-06-08" 2024 6 8 Hnow) as [H8 _];
    [vm_compute; split; split; discriminate | reflexivity|].
  destruct (daysUntil_zone e "2024-06-09" 2024 6 9 Hnow) as [H9 _];
    [vm_compute; split; split; discriminate | reflexivity|].
  rewrite (H8 Hz), (H9 Hz), Htoday. split; reflexivity.
Qed.



(** C5.  [render] shows exactly the bills of the store whose lower-cased
    name or notes contains the lower-cased search text and which satisfy
    the status filter, in the order of the store; the empty search text
    matches every bill; the count is the number of rows; the total is the
    sum, in row order, of the amounts of the unpaid rows. *)
Theorem render_view (e : Env) (query statusFilter : string)
  (bills : list Bill) :
  let v := render e query statusFilter bills in
  let visible := map fst (rows v) in
  (exists keep : Bill -> bool,
      (forall b, keep b = true
                 <-> textMatch query b /\ statusMatch e statusFilter b)
      /\ visible = List.filter keep bills)
  /\ visible `sublist_of` bills
  /\ (forall b, textMatch "" b)
  /\ (forall b, statusMatch e "all" b)
  /\ count v = List.length visible
  /\ total v
     = fold_left (fun sum b => PrimFloat.add sum (amount b))
                 (List.filter (fun b => negb (paid b)) visible) 0%float.
Proof.
  cbv zeta. unfold render. cbv zeta. simpl rows. simpl count. simpl total.
  rewrite map_fst_pair.
  split; [|split; [|split; [|split; [|split]]]].
  - exists (renderFilter e (toLowerCase query) statusFilter).
    split; [intros b; apply renderFilter_spec | reflexivity].
  - apply filter_sublist.
  - intros b. left. exists "", (toLowerCase (name b)). reflexivity.
  - intros b. apply (renderFilter_status e "all" b). reflexivity.
  - reflexivity.
  - apply unpaid_total.
Qed.

(** The [computeView] example of the specification: one unpaid bill of 100
    and one paid bill of 50 under the filter [all] total 100. *)
Example render_total_example :
  let v := render (utc june1) "" "all"
                  [bill "a" "Rent" 100 "2024-06-08" monthly false;
                   bill "b" "Gym" 50 "2024-06-20" none true] in
  (count v, total v) = (2%nat, 100%float).
Proof. vm_compute. reflexivity. Qed.



End ViewFacts.

(** ** The bill store: validation, upsert, delete, toggle *)
Module StoreFacts.
Import JS Main Spec Samples JSFacts.

Lemma hasId_true (i : string) (b : Bill) : hasId i b = true <-> id b = i.
Proof. unfold hasId. apply String.eqb_eq. Qed.

Lemma hasId_false (i : string) (b : Bill) : hasId i b = false <-> id b <> i.
Proof. unfold hasId. apply String.eqb_neq. Qed.

Lemma absent_findIndex (i : string) (bills : list Bill) :
  (forall b, b ∈ bills -> id b <> i) <-> findIndex (hasId i) bills < 0.
Proof.
  rewrite findIndex_absent, Forall_forall.
  split; intros H b Hb; apply hasId_false, H, Hb.
Qed.

(** The bill that [findIndex] locates for an id that is present. *)
Lemma present_findIndex (i : string) (bills : list Bill) :
  (exists b, b ∈ bills /\ id b = i) ->
  exists k old,
    findIndex (hasId i) bills = Z.of_nat k
    /\ bills !! k = Some old /\ id old = i
    /\ Forall (fun b => id b <> i) (take k bills).
Proof.
  intros (b & Hb & Hi).
  assert (Hge : 0 <= findIndex (hasId i) bills).
  { apply findIndex_present with b; [exact Hb | apply hasId_true, Hi]. }
  destruct (findIndex_found _ _ Hge) as (old & Hold & Hp & Hbefore).
  exists (Z.to_nat (findIndex (hasId i) bills)), old.
  split; [lia|]. split; [exact Hold|]. split; [apply hasId_true, Hp|].
  eapply Forall_impl; [exact Hbefore|].
  intros x Hx. apply hasId_false, Hx.
Qed.

(** *** The date pattern *)

Lemma dateRegex_shape (s : string) :
  RegExp_test dateRegex s = true <-> isDate422 s.
Proof.
  unfold dateRegex, isDate422. split.
  - intros H.
    destruct s as [|c1 [|c2 [|c3 [|c4 [|c5 [|c6 [|c7 [|c8 [|c9 [|c10 [|c11 s]]]]]]]]]]];
      simpl in H; rewrite ?andb_false_r in H; try discriminate H.
    rewrite !andb_true_iff, !Ascii.eqb_eq in H.
    destruct H as (? & ? & ? & ? & -> & ? & ? & -> & ? & ? & _).
    do 8 eexists. split; [reflexivity|]. tauto.
  - intros (y1 & y2 & y3 & y4 & m1 & m2 & d1 & d2 & -> & H1 & H2 & H3 & H4
            & H5 & H6 & H7 & H8).
    simpl. rewrite H1, H2, H3, H4, H5, H6, H7, H8. reflexivity.
Qed.

(** The strings that pass the date pattern are the strings whose fields
    [Date_parse] reads. *)
Lemma dateRegex_fields (s : string) :
  RegExp_test dateRegex s = true
  <-> exists y m d, dateOnlyFields s = Some (y, m, d).
Proof.
  unfold dateRegex, dateOnlyFields.
  destruct s as [|c1 [|c2 [|c3 [|c4 [|c5 [|c6 [|c7 [|c8 [|c9 [|c10 [|c11 s]]]]]]]]]]];
    simpl; rewrite ?andb_false_r;
    try (split; [discriminate | intros (y & m & d & H); discriminate]).
  rewrite andb_true_r.
  destruct (isDigit c1), (isDigit c2), (isDigit c3), (isDigit c4),
    (Ascii.eqb c5 "-"), (isDigit c6), (isDigit c7), (Ascii.eqb c8 "-"),
    (isDigit c9), (isDigit c10); simpl;
    (split; [first [discriminate | intros _; eauto]
            | first [reflexivity | intros (y & m & d & H); discriminate]]).
Qed.

Lemma dateRegex_nonempty (s : string) :
  RegExp_test dateRegex s = true -> s <> "".
Proof. intros H ->. discriminate H. Qed.

(** *** [validateBillForm] *)

Lemma validateBillForm_accepts (e : Env) (f : Form) :
  validateBillForm e f = None
  <-> trim (nameEl f) <> ""
      /\ PrimFloat.leb (parseMoney e (amountEl f)) 0 = false
      /\ RegExp_test dateRegex (dueEl f) = true.
Proof.
  unfold validateBillForm. cbv zeta.
  destruct (String.eqb_spec (trim (nameEl f)) "") as [Hn|Hn].
  { split; [discriminate | intros (H & _); contradiction]. }
  destruct (PrimFloat.leb (parseMoney e (amountEl f)) 0).
  { split; [discriminate | intros (_ & H & _); discriminate]. }
  destruct (String.eqb_spec (dueEl f) "") as [Hd|Hd].
  { split; [discriminate|]. intros (_ & _ & H).
    apply dateRegex_nonempty in H. contradiction. }
  destruct (RegExp_test dateRegex (dueEl f)); simpl.
  - split; [intros _; split; [assumption | split; reflexivity] | reflexivity].
  - split; [discriminate | intros (_ & _ & H); discriminate].
Qed.

(** *** [upsertBillFromForm] *)

Lemma upsert_rejected (e : Env) (f : Form) (bills : list Bill) (msg : string) :
  validateBillForm e f = Some msg ->
  upsertBillFromForm e f bills = (false, mkOutcome bills [msg]).
Proof. intros H. unfold upsertBillFromForm. rewrite H. reflexivity. Qed.

Lemma upsert_update (e : Env) (f : Form) (bills : list Bill) (k : nat)
  (old : Bill) :
  validateBillForm e f = None ->
  findIndex (hasId (formId e f)) bills = Z.of_nat k ->
  bills !! k = Some old ->
  upsertBillFromForm e f bills
  = (true, mkOutcome (<[k := formRecord e f (Some old)]> bills) []).
Proof.
  intros Hv Hk Hold. unfold upsertBillFromForm. rewrite Hv, Hk.
  destruct (Z.leb_spec 0 (Z.of_nat k)); [|lia].
  rewrite Nat2Z.id, Hold. reflexivity.
Qed.

Lemma upsert_insert (e : Env) (f : Form) (bills : list Bill) :
  validateBillForm e f = None ->
  findIndex (hasId (formId e f)) bills < 0 ->
  upsertBillFromForm e f bills
  = (true, mkOutcome (bills ++ [formRecord e f None])%list []).
Proof.
  intros Hv Hk. unfold upsertBillFromForm. rewrite Hv.
  destruct (Z.leb_spec 0 (findIndex (hasId (formId e f)) bills)); [lia|].
  reflexivity.
Qed.

(** An accepted form is always stored: the [catch] branch is dead. *)
Lemma upsert_accepted (e : Env) (f : Form) (bills : list Bill) :
  validateBillForm e f = None -> fst (upsertBillFromForm e f bills) = true.
Proof.
  intros Hv.
  destruct (Z.ltb_spec (findIndex (hasId (formId e f)) bills) 0) as [Hlt|Hge].
  - rewrite upsert_insert by assumption. reflexivity.
  - destruct (findIndex_found _ _ Hge) as (old & Hold & _).
    rewrite (upsert_update e f bills (Z.to_nat (findIndex (hasId (formId e f)) bills)) old);
      [reflexivity | assumption | lia | assumption].
Qed.

(** C7.  [upsertBillFromForm] refuses a form exactly when its trimmed name
    is empty, its parsed amount is at most 0, or its due date does not have
    the 4-2-2 digit shape; a refused form leaves the store as it was and
    shows the validation message. *)
Theorem upsert_validation (e : Env) (f : Form) (bills : list Bill) :
  let r := upsertBillFromForm e f bills in
  (fst r = false
   <-> trim (nameEl f) = ""
       \/ PrimFloat.leb (parseMoney e (amountEl f)) 0 = true
       \/ ~ isDate422 (dueEl f))
  /\ (fst r = false ->
      exists msg, validateBillForm e f = Some msg
                  /\ snd r = mkOutcome bills [msg]).
Proof.
  cbv zeta.
  destruct (validateBillForm e f) as [msg|] eqn:Hv.
  - rewrite (upsert_rejected e f bills msg Hv). simpl. split.
    + split; [intros _ | reflexivity].
      destruct (String.eqb_spec (trim (nameEl f)) "") as [Hn|Hn]; [left; exact Hn|].
      destruct (PrimFloat.leb (parseMoney e (amountEl f)) 0) eqn:Ha;
        [right; left; reflexivity|].
      right; right. intros Hd. apply dateRegex_shape in Hd.
      assert (validateBillForm e f = None)
        by (apply validateBillForm_accepts; repeat split; assumption).
      congruence.
    + intros _. exists msg. split; reflexivity.
  - pose proof (upsert_accepted e f bills Hv) as Hok.
    apply validateBillForm_accepts in Hv as (Hn & Ha & Hd).
    rewrite Hok. split.
    + split; [discriminate|].
      intros [H|[H|H]]; [contradiction | congruence |].
      exfalso. apply H, dateRegex_shape, Hd.
    + discriminate.
Qed.

(** C8.  An accepted form whose id is already in the store replaces the
    record with that id in place: the new record keeps [paid] and
    [createdAt] of the old one, takes the other fields from the form and
    [updatedAt] from the clock, and every other position of the store is
    unchanged.  An accepted form whose id is new appends exactly one record,
    unpaid, with [createdAt] and [updatedAt] both set from the clock. *)
Theorem upsert_effect (e : Env) (f : Form) (bills : list Bill) :
  validateBillForm e f = None ->
  let i := formId e f in
  let r := upsertBillFromForm e f bills in
  let notes' := if String.eqb (trim (notesEl f)) "" then None
                else Some (trim (notesEl f)) in
  fst r = true
  /\ shown (snd r) = []
  /\ ((exists b, b ∈ bills /\ id b = i) ->
      exists k old,
        bills !! k = Some old /\ id old = i
        /\ Forall (fun b => id b <> i) (take k bills)
        /\ store (snd r)
           = <[k := mkBill i (trim (nameEl f)) (parseMoney e (amountEl f))
                           (dueEl f) (recurrenceEl f) notes'
                           (paid old) (createdAt old) (isoString (now e))]>
               bills
        /\ (forall j, j <> k -> store (snd r) !! j = bills !! j)
        /\ List.length (store (snd r)) = List.length bills)
  /\ ((forall b, b ∈ bills -> id b <> i) ->
      store (snd r)
      = (bills ++ [mkBill i (trim (nameEl f)) (parseMoney e (amountEl f))
                          (dueEl f) (recurrenceEl f) notes'
                          false (isoString (now e)) (isoString (now e))])%list).
Proof.
  intros Hv. cbv zeta.
  split; [apply upsert_accepted, Hv|].
  split; [|split].
  - destruct (Z.ltb_spec (findIndex (hasId (formId e f)) bills) 0) as [Hlt|Hge].
    + rewrite upsert_insert by assumption. reflexivity.
    + destruct (findIndex_found _ _ Hge) as (old & Hold & _).
      rewrite (upsert_update e f bills
                 (Z.to_nat (findIndex (hasId (formId e f)) bills)) old);
        [reflexivity | assumption | lia | assumption].
  - intros Hin.
    destruct (present_findIndex _ _ Hin) as (k & old & Hk & Hold & Hid & Hbefore).
    exists k, old.
    rewrite (upsert_update e f bills k old Hv Hk Hold). simpl.
    split; [exact Hold|]. split; [exact Hid|]. split; [exact Hbefore|].
    split; [reflexivity|]. split.
    + intros j Hj. apply list_lookup_insert_ne. congruence.
    + apply length_insert.
  - intros Habs. apply absent_findIndex in Habs.
    rewrite upsert_insert by assumption. reflexivity.
Qed.

Lemma upsert_effect_witness :
  store (snd (upsertBillFromForm (utc june1)
                (form "a" " Rent " "1200" "2024-07-01" yearly)
                [bill "a" "Rent" 100 "2024-06-08" none true;
                 bill "b" "Gym" 50 "2024-06-20" none false]))
  = [mkBill "a" "Rent" 1200 "2024-07-01" yearly None true
            "2024-05-01T00:00:00.000Z" "2024-06-01T09:30:00.000Z";
     bill "b" "Gym" 50 "2024-06-20" none false].
Proof.
  pose (f := form "a" " Rent " "1200" "2024-07-01" yearly).
  pose (bs := [bill "a" "Rent" 100 "2024-06-08" none true;
               bill "b" "Gym" 50 "2024-06-20" none false]).
  destruct (upsert_effect (utc june1) f bs eq_refl) as (_ & _ & Hupd & _).
  destruct Hupd as (k & old & Hold & Hid & _ & Hstore & _).
  - exists (bill "a" "Rent" 100 "2024-06-08" none true).
    split; [apply list_elem_of_here | reflexivity].
  - fold f bs. rewrite Hstore.
    destruct k as [|[|k]]; simpl in Hold.
    + injection Hold as <-. vm_compute. reflexivity.
    + injection Hold as <-. vm_compute in Hid. discriminate Hid.
    + discriminate Hold.
Defined.

(** *** The click handler *)

Lemma click_absent (e : Env) (i action : string) (bills : list Bill) :
  (forall b, b ∈ bills -> id b <> i) ->
  billListClick e i action bills = mkOutcome bills [].
Proof.
  intros Habs. apply absent_findIndex in Habs. unfold billListClick.
  destruct (String.eqb i "" || String.eqb action ""); [reflexivity|].
  destruct (Z.ltb_spec (findIndex (hasId i) bills) 0); [reflexivity | lia].
Qed.

Lemma click_delete (e : Env) (i : string) (bills : list Bill) (k : nat)
  (b : Bill) :
  i <> "" ->
  findIndex (hasId i) bills = Z.of_nat k -> bills !! k = Some b ->
  billListClick e i "delete" bills = deleteBill e k bills.
Proof.
  intros Hi Hk Hb. unfold billListClick.
  apply String.eqb_neq in Hi. rewrite Hi, Hk. simpl.
  destruct (Z.ltb_spec (Z.of_nat k) 0); [lia|].
  rewrite Nat2Z.id, Hb. reflexivity.
Qed.

Lemma click_toggle (e : Env) (i : string) (bills : list Bill) (k : nat)
  (b : Bill) :
  i <> "" ->
  findIndex (hasId i) bills = Z.of_nat k -> bills !! k = Some b ->
  billListClick e i "toggle-paid" bills = togglePaid e k b bills.
Proof.
  intros Hi Hk Hb. unfold billListClick.
  apply String.eqb_neq in Hi. rewrite Hi, Hk. simpl.
  destruct (Z.ltb_spec (Z.of_nat k) 0); [lia|].
  rewrite Nat2Z.id, Hb. reflexivity.
Qed.

(** With unique ids, removing the record found for an id removes the id. *)
Lemma delete_removes_id (bills : list Bill) (k : nat) (b : Bill) :
  NoDup (map id bills) -> bills !! k = Some b ->
  forall b', b' ∈ delete k bills -> id b' <> id b.
Proof.
  intros Hnd Hb b' Hin Heq.
  rewrite <- (take_drop_middle bills k b Hb) in Hnd.
  rewrite map_app in Hnd. simpl in Hnd.
  apply NoDup_app in Hnd as (_ & Hdisj & Hnd).
  apply NoDup_cons in Hnd as [Hnotin _].
  rewrite delete_take_drop in Hin.
  apply elem_of_app in Hin as [Hin|Hin].
  - apply (Hdisj (id b)).
    + rewrite <- Heq. apply list_elem_of_In, in_map, list_elem_of_In, Hin.
    + apply list_elem_of_here.
  - apply Hnotin. rewrite <- Heq.
    apply list_elem_of_In, in_map, list_elem_of_In, Hin.
Qed.

Lemma filter_all {A : Type} (p : A -> bool) (l : list A) :
  Forall (fun x => p x = true) l -> List.filter p l = l.
Proof.
  induction 1 as [|x l Hx _ IH]; simpl; [reflexivity|].
  rewrite Hx, IH. reflexivity.
Qed.

Lemma delete_is_filter (i : string) (bills : list Bill) (k : nat) (b : Bill) :
  NoDup (map id bills) -> bills !! k = Some b -> id b = i ->
  delete k bills = List.filter (fun b => negb (hasId i b)) bills.
Proof.
  intros Hnd Hb Hi.
  assert (Hall : Forall (fun x => negb (hasId i x) = true) (delete k bills)).
  { apply Forall_forall. intros b' Hin. apply negb_true_iff, hasId_false.
    rewrite <- Hi. exact (delete_removes_id bills k b Hnd Hb b' Hin). }
  rewrite delete_take_drop in *.
  rewrite <- (take_drop_middle bills k b Hb) at 3.
  rewrite !List.filter_app. simpl.
  assert (hasId i b = true) as -> by (apply hasId_true, Hi). simpl.
  rewrite <- List.filter_app. symmetry. apply filter_all, Hall.
Qed.




(** C3, as the handler implements it.  A toggle of an id that is not in
    the store returns before anything is touched: the store is unchanged
    and no message is shown. *)
Theorem togglePaid_absent_silent (e : Env) (i : string) (bills : list Bill) :
  (forall b, b ∈ bills -> id b <> i) ->
  billListClick e i "toggle-paid" bills = mkOutcome bills []
  /\ ~ reportsError (billListClick e i "toggle-paid" bills).
Proof.
  intros Habs. rewrite (click_absent e i "toggle-paid" bills Habs).
  split; [reflexivity|]. intros H. apply H. reflexivity.
Qed.

Lemma togglePaid_absent_silent_witness :
  billListClick (utc june1) "ghost" "toggle-paid"
                [bill "a" "Rent" 100 "2024-06-08" none false]
  = mkOutcome [bill "a" "Rent" 100 "2024-06-08" none false] [].
Proof.
  apply (togglePaid_absent_silent (utc june1) "ghost"
           [bill "a" "Rent" 100 "2024-06-08" none false]).
  intros b Hb. apply list_elem_of_In in Hb. simpl in Hb.
  destruct Hb as [<-|[]]. discriminate.
Defined.

(** C3, as stated, fails: the toggle of a missing id reports no error. *)
Lemma togglePaid_absent_counterexample :
  ~ ((forall b, b ∈ [bill "a" "Rent" 100 "2024-06-08" none false] ->
                id b <> "ghost") ->
     reportsError (billListClick (utc june1) "ghost" "toggle-paid"
                     [bill "a" "Rent" 100 "2024-06-08" none false])).
Proof.
  intros H. apply H; [|reflexivity].
  intros b Hb. apply list_elem_of_In in Hb. simpl in Hb.
  destruct Hb as [<-|[]]. discriminate.
Qed.

End StoreFacts.

(** ** The paid/unpaid lifecycle *)
Module LifecycleFacts.
Import JS Main Spec Samples JSFacts DateFacts StoreFacts.

(** *** The toggle branch, case by case *)

Lemma togglePaid_unpay (e : Env) (k : nat) (b : Bill) (bills : list Bill) :
  paid b = true ->
  togglePaid e k b bills
  = mkOutcome (<[k := set_updatedAt (isoString (now e)) (set_paid false b)]> bills)
              (snd (save e)).
Proof. intros Hp. unfold togglePaid. cbv zeta. rewrite Hp. reflexivity. Qed.

Lemma togglePaid_one_off (e : Env) (k : nat) (b : Bill) (bills : list Bill) :
  paid b = false -> recurrence b = none ->
  togglePaid e k b bills
  = mkOutcome (<[k := set_updatedAt (isoString (now e)) (set_paid true b)]> bills)
              (snd (save e)).
Proof.
  intros Hp Hr. unfold togglePaid. cbv zeta. rewrite Hp. simpl.
  rewrite Hr. reflexivity.
Qed.

Lemma togglePaid_rolls (e : Env) (k : nat) (b : Bill) (bills : list Bill)
  (next : string) :
  paid b = false -> recurrence b <> none ->
  nextRecurringDate e (dueDate b) (recurrence b) = Returned next ->
  togglePaid e k b bills
  = mkOutcome
      (<[k := set_paid false
                (set_dueDate next
                   (set_updatedAt (isoString (now e)) (set_paid true b)))]> bills)
      (snd (save e)).
Proof.
  intros Hp Hr Hn. unfold togglePaid. cbv zeta. rewrite Hp. simpl.
  rewrite Hn. destruct (recurrence b); [contradiction | reflexivity | reflexivity].
Qed.

Lemma togglePaid_throws (e : Env) (k : nat) (b : Bill) (bills : list Bill)
  (err : string) :
  paid b = false -> recurrence b <> none ->
  nextRecurringDate e (dueDate b) (recurrence b) = Thrown err ->
  togglePaid e k b bills
  = mkOutcome (<[k := set_updatedAt (isoString (now e)) (set_paid true b)]> bills)
              ["Failed to toggle-paid bill"].
Proof.
  intros Hp Hr Hn. unfold togglePaid. cbv zeta. rewrite Hp. simpl.
  rewrite Hn. destruct (recurrence b); [contradiction | reflexivity | reflexivity].
Qed.

(** A click either leaves the store alone or reaches the branch with the
    first bill of the given id. *)
Lemma toggle_cases (e : Env) (i : string) (bills : list Bill) :
  billListClick e i "toggle-paid" bills = mkOutcome bills []
  \/ exists k b, bills !! k = Some b /\ id b = i
                 /\ billListClick e i "toggle-paid" bills = togglePaid e k b bills.
Proof.
  destruct (String.eqb_spec i "") as [->|Hi]; [left; reflexivity|].
  destruct (Z.ltb_spec (findIndex (hasId i) bills) 0) as [Hlt|Hge].
  - left. apply click_absent, absent_findIndex, Hlt.
  - right. destruct (findIndex_found _ _ Hge) as (b & Hb & Hp & _).
    exists (Z.to_nat (findIndex (hasId i) bills)), b.
    split; [exact Hb|]. split; [apply hasId_true, Hp|].
    apply click_toggle; [exact Hi | lia | exact Hb].
Qed.

Lemma delete_cases (e : Env) (i : string) (bills : list Bill) :
  store (billListClick e i "delete" bills) = bills
  \/ exists k, store (billListClick e i "delete" bills) = delete k bills.
Proof.
  destruct (String.eqb_spec i "") as [->|Hi]; [left; reflexivity|].
  destruct (Z.ltb_spec (findIndex (hasId i) bills) 0) as [Hlt|Hge].
  - left. rewrite click_absent; [reflexivity | apply absent_findIndex, Hlt].
  - destruct (findIndex_found _ _ Hge) as (b & Hb & _).
    rewrite (click_delete e i bills (Z.to_nat (findIndex (hasId i) bills)) b);
      [|exact Hi | lia | exact Hb].
    unfold deleteBill. destruct (confirmAnswer e); [right; eauto | left; reflexivity].
Qed.

Lemma upsert_cases (e : Env) (f : Form) (bills : list Bill) :
  store (snd (upsertBillFromForm e f bills)) = bills
  \/ (exists k old,
         bills !! k = Some old /\ id old = formId e f
         /\ store (snd (upsertBillFromForm e f bills))
            = <[k := formRecord e f (Some old)]> bills)
  \/ ((forall b, b ∈ bills -> id b <> formId e f)
      /\ store (snd (upsertBillFromForm e f bills))
         = (bills ++ [formRecord e f None])%list).
Proof.
  destruct (validateBillForm e f) as [msg|] eqn:Hv.
  - left. rewrite (upsert_rejected e f bills msg Hv). reflexivity.
  - right.
    destruct (Z.ltb_spec (findIndex (hasId (formId e f)) bills) 0) as [Hlt|Hge].
    + right. split; [apply absent_findIndex, Hlt|].
      rewrite upsert_insert by assumption. reflexivity.
    + left. destruct (findIndex_found _ _ Hge) as (old & Hold & Hp & _).
      exists (Z.to_nat (findIndex (hasId (formId e f)) bills)), old.
      split; [exact Hold|]. split; [apply hasId_true, Hp|].
      rewrite (upsert_update e f bills
                 (Z.to_nat (findIndex (hasId (formId e f)) bills)) old Hv);
        [reflexivity | lia | exact Hold].
Qed.

(** *** No paid recurring bill under the side conditions *)

Lemma unpaid_settled (b : Bill) : paid b = false -> ~ paidRecurring b.
Proof. intros Hp [_ H]. congruence. Qed.

Lemma one_off_settled (b : Bill) : recurrence b = none -> ~ paidRecurring b.
Proof. intros Hr [H _]. contradiction. Qed.

Lemma step_settled (e : Env) (op : Op) (bills : list Bill) :
  Forall (fun b => ~ paidRecurring b) bills -> guard e op bills ->
  Forall (fun b => ~ paidRecurring b) (step e op bills).
Proof.
  intros Hinv Hguard. destruct op as [f|i|i]; simpl in *.
  - destruct (upsert_cases e f bills)
      as [->|[(k & old & Hold & Hid & ->)|(_ & ->)]].
    + exact Hinv.
    + apply Forall_insert; [exact Hinv|].
      destruct (paid old) eqn:Hp.
      * apply one_off_settled. simpl.
        apply (Hguard old); [|exact Hid | exact Hp].
        apply list_elem_of_lookup. eauto.
      * apply unpaid_settled. simpl. exact Hp.
    + apply Forall_app. split; [exact Hinv|].
      constructor; [|constructor]. apply unpaid_settled. reflexivity.
  - destruct (delete_cases e i bills) as [->|(k & ->)]; [exact Hinv|].
    apply Forall_delete, Hinv.
  - destruct (toggle_cases e i bills) as [->|(k & b & Hb & Hid & ->)];
      [exact Hinv|].
    assert (Hin : b ∈ bills) by (apply list_elem_of_lookup; eauto).
    destruct (paid b) eqn:Hp.
    + rewrite togglePaid_unpay by exact Hp. simpl.
      apply Forall_insert; [exact Hinv|]. apply unpaid_settled. reflexivity.
    + destruct (Recurrence_eqb (recurrence b) none) eqn:Hr.
      * assert (recurrence b = none) as Hnone
          by (destruct (recurrence b); [reflexivity | discriminate | discriminate]).
        rewrite togglePaid_one_off by assumption. simpl.
        apply Forall_insert; [exact Hinv|]. apply one_off_settled. exact Hnone.
      * assert (recurrence b <> none) as Hrec by (intros H; rewrite H in Hr; discriminate).
        destruct (Hguard b Hin Hid Hp Hrec) as (next & Hnext).
        rewrite (togglePaid_rolls e k b bills next Hp Hrec Hnext). simpl.
        apply Forall_insert; [exact Hinv|]. apply unpaid_settled. reflexivity.
Qed.

(** Bills whose due dates are calendar dates can always be rolled. *)
Lemma canRoll_calendar (e : Env) (i : string) (bills : list Bill) :
  (forall b, b ∈ bills -> recurrence b <> none -> isCalendarDate (dueDate b)) ->
  canRoll e i bills.
Proof.
  intros Hcal b Hin _ _ Hr.
  apply nextRecurringDate_calendar; [exact Hr | exact (Hcal b Hin Hr)].
Qed.

(** C2, as the store implements it.  Along every run from the empty store
    in which no edit writes a recurrence other than [none] onto a paid bill
    and every unpaid recurring bill that is toggled has a due date whose
    next occurrence can be computed, no stored bill is both recurring and
    paid. *)
Theorem reachableGuarded_settled (bills : list Bill) :
  reachableGuarded bills -> Forall (fun b => ~ paidRecurring b) bills.
Proof.
  induction 1 as [|e op bills _ IH Hguard].
  - constructor.
  - apply step_settled; assumption.
Qed.

Lemma reachableGuarded_settled_witness :
  Forall (fun b => ~ paidRecurring b)
         [mkBill "00000000-0000-4000-8000-000000000000" "Rent" 1200
                 "2024-07-08" monthly None false
                 "2024-06-01T09:30:00.000Z" "2024-06-10T09:30:00.000Z"].
Proof.
  apply (reachableGuarded_settled
           (step (utc june10)
                 (TogglePaid "00000000-0000-4000-8000-000000000000")
                 (step (utc june1)
                       (Upsert (form "" "Rent" "1200" "2024-06-08" monthly))
                       []))).
  apply reachableGuarded_step; [apply reachableGuarded_step|].
  - apply reachableGuarded_empty.
  - intros old Hold. apply list_elem_of_In in Hold. destruct Hold.
  - intros b Hb _ _ _. apply list_elem_of_In in Hb. simpl in Hb.
    destruct Hb as [<-|[]]. vm_compute. eauto.
Defined.

(** C2, as stated, fails: a one-off bill is paid, then edited into a
    monthly one; the edit keeps the paid flag. *)
Lemma reachable_paid_recurring_counterexample :
  ~ (forall bills, reachable bills -> Forall (fun b => ~ paidRecurring b) bills).
Proof.
  intros H.
  pose (i := "00000000-0000-4000-8000-000000000000").
  specialize (H (step (utc june10)
                      (Upsert (form i "Rent" "1200" "2024-06-08" monthly))
                   (step (utc june1) (TogglePaid i)
                      (step (utc june1)
                            (Upsert (form "" "Rent" "1200" "2024-06-08" none))
                            [])))).
  assert (Hreach : reachable
            (step (utc june10)
                  (Upsert (form i "Rent" "1200" "2024-06-08" monthly))
               (step (utc june1) (TogglePaid i)
                  (step (utc june1)
                        (Upsert (form "" "Rent" "1200" "2024-06-08" none))
                        [])))) by (repeat constructor).
  specialize (H Hreach). vm_compute in H.
  inversion H as [|b l Hb _]; subst. apply Hb. split; [discriminate | reflexivity].
Qed.

(** *** Unique ids *)

Lemma map_insert_same {A B : Type} (f : A -> B) (l : list A) (k : nat)
  (x y : A) :
  l !! k = Some x -> f y = f x -> map f (<[k := y]> l) = map f l.
Proof.
  revert k. induction l as [|a l IH]; intros [|k] Hx Hf; simpl in *;
    try discriminate.
  - injection Hx as ->. rewrite Hf. reflexivity.
  - rewrite (IH k Hx Hf). reflexivity.
Qed.

Lemma map_delete {A B : Type} (f : A -> B) (l : list A) (k : nat) :
  map f (delete k l) = delete k (map f l).
Proof.
  revert k. induction l as [|a l IH]; intros [|k]; simpl; try reflexivity.
  rewrite IH. reflexivity.
Qed.

Lemma step_unique_ids (e : Env) (op : Op) (bills : list Bill) :
  NoDup (map id bills) -> NoDup (map id (step e op bills)).
Proof.
  intros Hnd. destruct op as [f|i|i]; simpl.
  - destruct (upsert_cases e f bills)
      as [->|[(k & old & Hold & Hid & ->)|(Habs & ->)]].
    + exact Hnd.
    + rewrite (map_insert_same id bills k old); [exact Hnd | exact Hold|].
      simpl. symmetry. exact Hid.
    + rewrite map_app. apply NoDup_app. split; [exact Hnd|]. split.
      * intros x Hx Hin. apply list_elem_of_In in Hin. simpl in Hin.
        destruct Hin as [<-|[]].
        apply list_elem_of_In, in_map_iff in Hx as (b & Hb & Hin).
        apply (Habs b); [apply list_elem_of_In, Hin | exact Hb].
      * apply NoDup_singleton.
  - destruct (delete_cases e i bills) as [->|(k & ->)]; [exact Hnd|].
    rewrite map_delete.
    apply (sublist_NoDup _ (map id bills)); [exact Hnd | apply sublist_delete].
  - destruct (toggle_cases e i bills) as [->|(k & b & Hb & Hid & ->)];
      [exact Hnd|].
    unfold togglePaid. cbv zeta.
    repeat match goal with
           | |- context [if ?c then _ else _] => destruct c
           | |- context [match ?c with Returned _ => _ | Thrown _ => _ end] =>
               destruct c
           end;
      simpl; rewrite (map_insert_same id bills k b); auto.
Qed.

(** Ids stay unique along every run from the empty store. *)
Lemma reachable_unique_ids (bills : list Bill) :
  reachable bills -> NoDup (map id bills).
Proof.
  induction 1 as [|e op bills _ IH]; [constructor|].
  apply step_unique_ids, IH.
Qed.

(** *** Toggling an unpaid bill *)

(** When the due date of an unpaid bill is a calendar date, the toggle
    does what the lifecycle asks: a one-off bill becomes paid and keeps its
    date; a recurring bill stays unpaid and moves to its next occurrence,
    which for a year below 9998 is a parsable date 28 to 367 days later.
    [updatedAt] is refreshed in both cases. *)
Lemma togglePaid_calendar (e : Env) (k : nat) (b : Bill) (bills : list Bill) :
  paid b = false ->
  (recurrence b = none ->
   togglePaid e k b bills
   = mkOutcome
       (<[k := mkBill (id b) (name b) (amount b) (dueDate b) (recurrence b)
                      (notes b) true (createdAt b) (isoString (now e))]> bills)
       (snd (save e)))
  /\ (recurrence b <> none -> isCalendarDate (dueDate b) ->
      exists next,
        nextRecurringDate e (dueDate b) (recurrence b) = Returned next
        /\ togglePaid e k b bills
           = mkOutcome
               (<[k := mkBill (id b) (name b) (amount b) next (recurrence b)
                              (notes b) false (createdAt b)
                              (isoString (now e))]> bills)
               (snd (save e))
        /\ (forall y m d,
              dateOnlyFields (dueDate b) = Some (y, m, d) -> y <= 9997 ->
              exists t t',
                Date_parse (strictDates e) (dueDate b) = Some t
                /\ Date_parse (strictDates e) next = Some t'
                /\ t + 28 * msPerDay <= t' <= t + 367 * msPerDay)).
Proof.
  intros Hp. split.
  - intros Hr. rewrite togglePaid_one_off by assumption. reflexivity.
  - intros Hr Hc.
    destruct (nextRecurringDate_calendar e (dueDate b) (recurrence b) Hr Hc)
      as (next & Hnext).
    exists next. split; [exact Hnext|]. split.
    + rewrite (togglePaid_rolls e k b bills next Hp Hr Hnext). reflexivity.
    + intros y m d Hf Hy.
      destruct (nextRecurringDate_later e (dueDate b) (recurrence b) y m d
                  Hr Hc Hf Hy) as (t & next' & t' & Ht & Hn' & Ht' & Hlt).
      rewrite Hnext in Hn'. injection Hn' as <-.
      exists t, t'. repeat split; [exact Ht | exact Ht' | lia | lia].
Qed.

(** When the engine cannot parse the due date of an unpaid recurring bill,
    [toISOString] throws after [paid] has been set: the bill is left paid,
    with its old date, and the handler shows its failure message. *)
Lemma togglePaid_unparsed (e : Env) (k : nat) (b : Bill) (bills : list Bill) :
  paid b = false -> recurrence b <> none ->
  Date_parse (strictDates e) (dueDate b) = None ->
  togglePaid e k b bills
  = mkOutcome
      (<[k := mkBill (id b) (name b) (amount b) (dueDate b) (recurrence b)
                     (notes b) true (createdAt b) (isoString (now e))]> bills)
      ["Failed to toggle-paid bill"].
Proof.
  intros Hp Hr Hd.
  rewrite (togglePaid_throws e k b bills "RangeError: Invalid time value" Hp Hr);
    [reflexivity|].
  apply nextRecurringDate_unparsed; assumption.
Qed.

(** In December 9999 the next occurrence leaves the four-digit years: the
    first ten characters of the ISO string are no longer a date of the
    4-2-2 shape. *)
Example nextRecurringDate_year_10000 :
  nextRecurringDate (utc june1) "9999-12-15" monthly = Returned "+010000-01".
Proof. vm_compute. reflexivity. Qed.

(** C1 on a due date that passes validation but is no calendar date.  The
    form with the due date 2024-13-45 is accepted and stored as an unpaid
    monthly bill; toggling that bill leaves it paid with its date
    unchanged, and shows the failure message. *)
Theorem togglePaid_month_13_stays_paid :
  let i := "00000000-0000-4000-8000-000000000000" in
  let f := form "" "Rent" "1200" "2024-13-45" monthly in
  let stored := step (utc june1) (Upsert f) [] in
  validateBillForm (utc june1) f = None
  /\ stored = [mkBill i "Rent" 1200 "2024-13-45" monthly None false
                      "2024-06-01T09:30:00.000Z" "2024-06-01T09:30:00.000Z"]
  /\ billListClick (utc june10) i "toggle-paid" stored
     = mkOutcome [mkBill i "Rent" 1200 "2024-13-45" monthly None true
                         "2024-06-01T09:30:00.000Z" "2024-06-10T09:30:00.000Z"]
                 ["Failed to toggle-paid bill"].
Proof. cbv zeta. split; [|split]; vm_compute; reflexivity. Qed.

(** *** Due dates that pass validation *)

(** C10, as the validation implements it.  A due date that passes
    validation has the 4-2-2 digit shape.  When its fields are moreover a
    calendar date and the clock is inside the [Date] range, [daysUntil] of
    it is an integer; when the engine cannot parse it, [daysUntil] is
    NaN. *)
Theorem accepted_dueDate (e : Env) (f : Form) :
  validateBillForm e f = None ->
  isDate422 (dueEl f)
  /\ (isCalendarDate (dueEl f) -> 0 <= now e <= 8640000000000000 ->
      exists d, daysUntil e (dueEl f) = Some d)
  /\ (Date_parse (strictDates e) (dueEl f) = None ->
      daysUntil e (dueEl f) = NaN).
Proof.
  intros Hv. apply validateBillForm_accepts in Hv as (_ & _ & Hd).
  split; [apply dateRegex_shape, Hd|]. split.
  - intros Hc Hnow. apply daysUntil_calendar; assumption.
  - apply daysUntil_unparsed.
Qed.

Lemma accepted_dueDate_witness :
  isDate422 "2024-06-08"
  /\ exists d, daysUntil (utc june1) "2024-06-08" = Some d.
Proof.
  destruct (accepted_dueDate (utc june1)
              (form "" "Rent" "1200" "2024-06-08" monthly) eq_refl)
    as (Hshape & Hint & _).
  split; [exact Hshape|].
  apply Hint; [vm_compute; split; split; discriminate|].
  vm_compute. split; discriminate.
Defined.

(** C10, as stated, fails: 2024-13-45 passes validation, is no calendar
    date, and has no day count. *)
Lemma accepted_dueDate_counterexample :
  ~ (validateBillForm (utc june1) (form "" "Rent" "1200" "2024-13-45" monthly)
     = None ->
     isCalendarDate "2024-13-45"
     /\ exists d, daysUntil (utc june1) "2024-13-45" = Some d).
Proof.
  intros H. destruct (H eq_refl) as [_ [d Hd]]. vm_compute in Hd. discriminate Hd.
Qed.

End LifecycleFacts.

(** ** [escapeHtml] *)
Module EscapeFacts.
Import JS Main Spec Page PageSpec.

Lemma append_assoc (a b c : string) : (a ++ b) ++ c = a ++ b ++ c.
Proof. induction a as [|x a IH]; simpl; [reflexivity | rewrite IH; reflexivity]. Qed.

Lemma append_length (a b : string) :
  String.length (a ++ b) = (String.length a + String.length b)%nat.
Proof. induction a as [|x a IH]; simpl; [reflexivity | rewrite IH; reflexivity]. Qed.

Lemma replaceAll_app (c : ascii) (by_ a b : string) :
  replaceAll c by_ (a ++ b) = replaceAll c by_ a ++ replaceAll c by_ b.
Proof.
  induction a as [|x a IH]; simpl; [reflexivity|].
  rewrite IH. destruct (Ascii.eqb x c); simpl; [|reflexivity].
  rewrite append_assoc. reflexivity.
Qed.

(** The five replacements in sequence act as one pass that maps each
    character on its own: no replacement touches what an earlier one
    produced. *)
Lemma escapeHtml_unit (c : ascii) :
  escapeHtml (String c "") = escapeUnit c.
Proof.
  unfold escapeHtml, escapeUnit.
  destruct (Ascii.eqb_spec c "&") as [->|Hamp]; [reflexivity|].
  destruct (Ascii.eqb_spec c "<") as [->|Hlt]; [reflexivity|].
  destruct (Ascii.eqb_spec c ">") as [->|Hgt]; [reflexivity|].
  destruct (Ascii.eqb_spec c dquote) as [->|Hq]; [reflexivity|].
  destruct (Ascii.eqb_spec c "'") as [->|Ha]; [reflexivity|].
  apply Ascii.eqb_neq in Hamp, Hlt, Hgt, Hq, Ha.
  simpl. rewrite Hamp. simpl. rewrite Hlt. simpl. rewrite Hgt. simpl.
  rewrite Hq. simpl. rewrite Ha. reflexivity.
Qed.

Lemma escapeHtml_app (a b : string) :
  escapeHtml (a ++ b) = escapeHtml a ++ escapeHtml b.
Proof. unfold escapeHtml. rewrite !replaceAll_app. reflexivity. Qed.

Lemma escapeHtml_cons (c : ascii) (r : string) :
  escapeHtml (String c r) = escapeUnit c ++ escapeHtml r.
Proof.
  change (String c r) with (String c "" ++ r).
  rewrite escapeHtml_app, escapeHtml_unit. reflexivity.
Qed.

Lemma escapeUnit_cases (c : ascii) :
  (isMarkup c = false /\ escapeUnit c = String c "")
  \/ (isMarkup c = true /\ In (escapeUnit c) entities).
Proof.
  unfold isMarkup, escapeUnit, entities.
  destruct (Ascii.eqb c "&"); [right; simpl; tauto|].
  destruct (Ascii.eqb c "<"); [right; simpl; tauto|].
  destruct (Ascii.eqb c ">"); [right; simpl; tauto|].
  destruct (Ascii.eqb c dquote); [right; simpl; tauto|].
  destruct (Ascii.eqb c "'"); [right; simpl; tauto|].
  left. split; reflexivity.
Qed.

Lemma escapeHtml_length (s : string) :
  (String.length s <= String.length (escapeHtml s))%nat.
Proof.
  induction s as [|c s IH]; [apply Nat.le_refl|].
  rewrite escapeHtml_cons, append_length.
  destruct (escapeUnit_cases c) as [[_ ->]|[_ Hin]]; simpl; [lia|].
  destruct Hin as [<-|[<-|[<-|[<-|[<-|[]]]]]]; simpl; lia.
Qed.

(** X1.  The output of [escapeHtml] is made of ordinary characters and the
    five entities only: none of its characters is a less-than sign, a
    greater-than sign, a double quote or an apostrophe, and every ampersand
    in it opens an entity. *)
Theorem escapeHtml_escaped (s : string) :
  Escaped (escapeHtml s)
  /\ Forall (fun c => c <> "<"%char /\ c <> ">"%char /\ c <> dquote
                      /\ c <> "'"%char)
            (list_ascii_of_string (escapeHtml s)).
Proof.
  induction s as [|c s [IH1 IH2]]; [split; constructor|].
  rewrite escapeHtml_cons.
  destruct (escapeUnit_cases c) as [[Hplain ->]|[_ Hin]].
  - split; [apply Escaped_plain; assumption|]. simpl. constructor; [|exact IH2].
    unfold isMarkup in Hplain. rewrite !orb_false_iff in Hplain.
    destruct Hplain as ((((_ & Hlt) & Hgt) & Hq) & Ha).
    apply Ascii.eqb_neq in Hlt, Hgt, Hq, Ha. tauto.
  - split; [apply Escaped_entity; assumption|].
    destruct Hin as [<-|[<-|[<-|[<-|[<-|[]]]]]]; simpl;
      repeat (constructor; [repeat split; discriminate|]); exact IH2.
Qed.

(** X2.  [escapeHtml] loses nothing: two different texts never escape to
    the same markup. *)
Theorem escapeHtml_injective (s1 s2 : string) :
  escapeHtml s1 = escapeHtml s2 -> s1 = s2.
Proof.
  revert s2. induction s1 as [|c1 s1 IH]; intros [|c2 s2].
  - reflexivity.
  - rewrite escapeHtml_cons. unfold escapeUnit.
    repeat match goal with |- context [if ?b then _ else _] => destruct b end;
      discriminate.
  - rewrite escapeHtml_cons. unfold escapeUnit.
    repeat match goal with |- context [if ?b then _ else _] => destruct b end;
      discriminate.
  - rewrite !escapeHtml_cons. unfold escapeUnit.
    destruct (Ascii.eqb_spec c1 "&") as [->|H1a];
    [|destruct (Ascii.eqb_spec c1 "<") as [->|H1b];
      [|destruct (Ascii.eqb_spec c1 ">") as [->|H1c];
        [|destruct (Ascii.eqb_spec c1 dquote) as [->|H1d];
          [|destruct (Ascii.eqb_spec c1 "'") as [->|H1e]]]]];
    (destruct (Ascii.eqb_spec c2 "&") as [->|H2a];
     [|destruct (Ascii.eqb_spec c2 "<") as [->|H2b];
       [|destruct (Ascii.eqb_spec c2 ">") as [->|H2c];
         [|destruct (Ascii.eqb_spec c2 dquote) as [->|H2d];
           [|destruct (Ascii.eqb_spec c2 "'") as [->|H2e]]]]]);
    simpl; intros H; try discriminate H;
      try (injection H as H; f_equal; apply IH; exact H);
      try (injection H as Hc H; congruence).
    injection H as -> H. f_equal. apply IH, H.
Qed.

Lemma escapeHtml_injective_witness :
  "Tom & <Jerry>" = "Tom & <Jerry>".
Proof.
  apply (escapeHtml_injective "Tom & <Jerry>" "Tom & <Jerry>"). reflexivity.
Defined.

Lemma escapeHtml_fixed_plain (s : string) :
  escapeHtml s = s
  <-> Forall (fun c => isMarkup c = false) (list_ascii_of_string s).
Proof.
  induction s as [|c s IH]; [split; [constructor | reflexivity]|].
  rewrite escapeHtml_cons. simpl list_ascii_of_string.
  destruct (escapeUnit_cases c) as [[Hplain ->]|[Hm Hin]].
  - simpl. split.
    + intros [= H]. constructor; [exact Hplain | apply IH, H].
    + intros H. inversion H; subst. f_equal. apply IH. assumption.
  - split.
    + intros H. exfalso.
      assert (Hlen : String.length (escapeUnit c ++ escapeHtml s)
                     = String.length (String c s)) by (rewrite H; reflexivity).
      rewrite append_length in Hlen. pose proof (escapeHtml_length s).
      assert (4 <= String.length (escapeUnit c))%nat
        by (destruct Hin as [<-|[<-|[<-|[<-|[<-|[]]]]]]; simpl; lia).
      simpl in Hlen. lia.
    + intros H. inversion H; subst. congruence.
Qed.

Lemma list_ascii_app (a b : string) :
  list_ascii_of_string (a ++ b)
  = (list_ascii_of_string a ++ list_ascii_of_string b)%list.
Proof. induction a as [|x a IH]; simpl; [reflexivity | rewrite IH; reflexivity]. Qed.

(** A text whose escaped form has no markup character had none itself. *)
Lemma escapeHtml_plain_inv (s : string) :
  Forall (fun c => isMarkup c = false) (list_ascii_of_string (escapeHtml s)) ->
  Forall (fun c => isMarkup c = false) (list_ascii_of_string s).
Proof.
  induction s as [|c s IH]; [constructor|].
  rewrite escapeHtml_cons, list_ascii_app, Forall_app. intros [Hc Hs].
  simpl. constructor; [|apply IH, Hs].
  destruct (escapeUnit_cases c) as [[Hplain _]|[_ Hin]]; [exact Hplain|].
  exfalso.
  destruct Hin as [H|[H|[H|[H|[H|[]]]]]]; rewrite <- H in Hc;
    inversion Hc; discriminate.
Qed.

(** X3.  [escapeHtml] returns its argument unchanged exactly when the
    argument contains none of the five characters, and escaping twice
    equals escaping once in that case only: [escapeHtml] is not
    idempotent on text that contains markup. *)
Theorem escapeHtml_fixed (s : string) :
  (escapeHtml s = s
   <-> Forall (fun c => isMarkup c = false) (list_ascii_of_string s))
  /\ (escapeHtml (escapeHtml s) = escapeHtml s
      <-> Forall (fun c => isMarkup c = false) (list_ascii_of_string s)).
Proof.
  split; [apply escapeHtml_fixed_plain|].
  rewrite escapeHtml_fixed_plain. split.
  - apply escapeHtml_plain_inv.
  - intros H. apply escapeHtml_fixed_plain in H. rewrite H.
    apply escapeHtml_fixed_plain. exact H.
Qed.

End EscapeFacts.

(** ** Invariants of the stored bills *)
Module StoreInvariants.
Import JS Main Spec Samples JSFacts StoreFacts LifecycleFacts Page PageSpec.

(** *** [trim] *)

Lemma trimStart_head (s : string) :
  trimStart s = ""
  \/ exists c r, trimStart s = String c r /\ isWhiteSpace c = false.
Proof.
  induction s as [|c s IH]; simpl; [left; reflexivity|].
  destruct (isWhiteSpace c) eqn:Hc; [exact IH|].
  right. exists c, s. split; [reflexivity | exact Hc].
Qed.

Lemma trimEnd_cons (c : ascii) (r : string) :
  isWhiteSpace c = false -> exists r', trimEnd (String c r) = String c r'.
Proof.
  intros Hc. simpl. destruct (trimEnd r); rewrite ?Hc; eauto.
Qed.

Lemma trimEnd_idem (s : string) : trimEnd (trimEnd s) = trimEnd s.
Proof.
  induction s as [|c s IH]; simpl; [reflexivity|].
  destruct (trimEnd s) as [|d r'] eqn:Hs.
  - destruct (isWhiteSpace c) eqn:Hc; simpl; [reflexivity|].
    rewrite Hc. reflexivity.
  - simpl in IH. simpl. destruct (trimEnd r') as [|d' r''] eqn:Hr'.
    + destruct (isWhiteSpace d) eqn:Hd; [discriminate IH|].
      injection IH as <-. reflexivity.
    + injection IH as <-. reflexivity.
Qed.

Lemma trim_idem (s : string) : trim (trim s) = trim s.
Proof.
  unfold trim.
  destruct (trimStart_head s) as [->|(c & r & -> & Hc)]; [reflexivity|].
  destruct (trimEnd_cons c r Hc) as (r' & Hr).
  assert (trimStart (trimEnd (String c r)) = trimEnd (String c r)) as ->
    by (rewrite Hr; simpl; rewrite Hc; reflexivity).
  apply trimEnd_idem.
Qed.

(** *** [parseMoney] *)

Lemma parseMoney_cases (e : Env) (v : string) :
  parseMoney e v = 0%float
  \/ (Number_isFinite (parseMoney e v) = true
      /\ PrimFloat.ltb 0 (parseMoney e v) = true).
Proof.
  unfold parseMoney. cbv zeta.
  destruct (Number_isFinite (StringToNumber e v)) eqn:Hfin; [|left; reflexivity].
  unfold Math_max.
  assert (PrimFloat.is_nan (StringToNumber e v) = false) as Hnan.
  { unfold Number_isFinite in Hfin. apply negb_true_iff, orb_false_iff in Hfin.
    apply Hfin. }
  rewrite Hnan.
  change (PrimFloat.is_nan 0) with false. cbv iota. simpl orb. cbv iota.
  destruct (PrimFloat.ltb 0 (StringToNumber e v)) eqn:Hpos.
  - right. split; [exact Hfin | exact Hpos].
  - destruct (PrimFloat.ltb (StringToNumber e v) 0); [left; reflexivity|].
    change (PrimFloat.get_sign 0) with false. left. reflexivity.
Qed.

Lemma parseMoney_accepted (e : Env) (v : string) :
  PrimFloat.leb (parseMoney e v) 0 = false ->
  Number_isFinite (parseMoney e v) = true
  /\ PrimFloat.ltb 0 (parseMoney e v) = true.
Proof.
  intros Hle. destruct (parseMoney_cases e v) as [H0|H]; [|exact H].
  rewrite H0 in Hle. discriminate Hle.
Qed.

(** X4.  Whatever text the amount field holds, [parseMoney] gives +0 or a
    finite number above zero: never NaN, never an infinity, never a
    negative number.  A text that [Number] reads as NaN or as an infinity
    gives +0. *)
Theorem parseMoney_range (e : Env) (v : string) :
  (parseMoney e v = 0%float
   \/ (Number_isFinite (parseMoney e v) = true
       /\ PrimFloat.ltb 0 (parseMoney e v) = true))
  /\ (Number_isFinite (StringToNumber e v) = false -> parseMoney e v = 0%float).
Proof.
  split; [apply parseMoney_cases|].
  intros H. unfold parseMoney. cbv zeta. rewrite H. reflexivity.
Qed.

Lemma parseMoney_range_witness :
  parseMoney (utc june1) "abc" = 0%float
  /\ parseMoney (utc june1) "-5" = 0%float
  /\ parseMoney (utc june1) "1200" = 1200%float.
Proof.
  split; [|split].
  - apply (parseMoney_range (utc june1) "abc"). reflexivity.
  - reflexivity.
  - reflexivity.
Defined.

(** *** Well-formed bills *)

Lemma formRecord_wellFormed (e : Env) (f : Form) (old : option Bill) :
  validateBillForm e f = None -> wellFormed (formRecord e f old).
Proof.
  intros Hv. apply validateBillForm_accepts in Hv as (Hn & Ha & _).
  destruct (parseMoney_accepted e (amountEl f) Ha) as [Hfin Hpos].
  unfold wellFormed, formRecord. cbv zeta. simpl.
  split; [exact Hn|]. split; [apply trim_idem|].
  split; [exact Hfin|]. split; [exact Hpos|]. split; [exact Ha|].
  destruct (String.eqb_spec (trim (notesEl f)) "") as [|Hne]; [exact I|].
  split; [exact Hne | apply trim_idem].
Qed.

Lemma wellFormed_same (b b' : Bill) :
  name b' = name b -> amount b' = amount b -> notes b' = notes b ->
  wellFormed b -> wellFormed b'.
Proof. unfold wellFormed. intros -> -> ->. tauto. Qed.

Lemma togglePaid_store (e : Env) (k : nat) (b : Bill) (bills : list Bill) :
  exists b', store (togglePaid e k b bills) = <[k := b']> bills
             /\ sameIdentity b b'.
Proof.
  unfold togglePaid. cbv zeta.
  repeat match goal with
         | |- context [if ?c then _ else _] => destruct c
         | |- context [match ?c with Returned _ => _ | Thrown _ => _ end] =>
             destruct c
         end;
    simpl; eexists; (split; [reflexivity|]); repeat split.
Qed.

Lemma step_wellFormed (e : Env) (op : Op) (bills : list Bill) :
  Forall wellFormed bills -> Forall wellFormed (step e op bills).
Proof.
  intros Hwf. destruct op as [f|i|i]; simpl.
  - destruct (validateBillForm e f) as [msg|] eqn:Hv.
    { rewrite (upsert_rejected e f bills msg Hv). exact Hwf. }
    destruct (upsert_cases e f bills)
      as [->|[(k & old & _ & _ & ->)|(_ & ->)]].
    + exact Hwf.
    + apply Forall_insert; [exact Hwf | apply formRecord_wellFormed, Hv].
    + apply Forall_app. split; [exact Hwf|].
      constructor; [apply formRecord_wellFormed, Hv | constructor].
  - destruct (delete_cases e i bills) as [->|(k & ->)]; [exact Hwf|].
    apply Forall_delete, Hwf.
  - destruct (toggle_cases e i bills) as [->|(k & b & Hb & _ & ->)];
      [exact Hwf|].
    destruct (togglePaid_store e k b bills) as (b' & -> & Hsame).
    apply Forall_insert; [exact Hwf|].
    destruct Hsame as (_ & Hn & Ha & _ & Hnotes & _).
    apply (wellFormed_same b b' Hn Ha Hnotes).
    rewrite Forall_forall in Hwf. apply Hwf, list_elem_of_lookup. eauto.
Qed.

(** X5.  In every state reachable from the empty store, every bill has
    a non-empty trimmed name, a finite amount above zero and notes that
    are absent or non-empty and trimmed. *)
Theorem reachable_wellFormed (bills : list Bill) :
  reachable bills -> Forall wellFormed bills.
Proof.
  induction 1 as [|e op bills _ IH]; [constructor|].
  apply step_wellFormed, IH.
Qed.

Lemma reachable_wellFormed_witness :
  wellFormed (mkBill "00000000-0000-4000-8000-000000000000" "Rent" 1200
                     "2024-06-08" monthly None false
                     "2024-06-01T09:30:00.000Z" "2024-06-01T09:30:00.000Z").
Proof.
  pose proof (reachable_wellFormed
                (step (utc june1)
                      (Upsert (form "" " Rent " "1200" "2024-06-08" monthly)) [])
                (reachable_step _ _ _ reachable_empty)) as H.
  inversion H as [|b l Hb _]. exact Hb.
Defined.

(** X6.  In every state reachable from the empty store no two bills have
    the same id, whatever ids [crypto.randomUUID] and the hidden id field
    supply. *)
Theorem reachable_ids_unique (bills : list Bill) :
  reachable bills -> NoDup (map id bills).
Proof.
  induction 1 as [|e op bills _ IH]; [constructor|].
  apply step_unique_ids, IH.
Qed.

Lemma reachable_ids_unique_witness :
  NoDup ["00000000-0000-4000-8000-000000000000"; "b"].
Proof.
  apply (reachable_ids_unique
           (step (utc june1) (Upsert (form "" "Gym" "50" "2024-06-08" monthly))
              (step (utc june1) (Upsert (form "b" "Gym" "50" "2024-06-08" monthly))
                 (step (utc june1)
                       (Upsert (form "" "Rent" "1200" "2024-06-08" monthly)) [])))).
  repeat constructor.
Defined.

(** *** What a step keeps *)

Lemma same_id_same_bill (l : list Bill) (b b' : Bill) :
  NoDup (map id l) -> b ∈ l -> b' ∈ l -> id b = id b' -> b = b'.
Proof.
  induction l as [|x l IH]; simpl; intros Hnd Hb Hb' Hid.
  - inversion Hb.
  - apply NoDup_cons in Hnd as [Hx Hnd].
    apply elem_of_cons in Hb as [->|Hb]; apply elem_of_cons in Hb' as [->|Hb'].
    + reflexivity.
    + exfalso. apply Hx. rewrite Hid.
      apply list_elem_of_In, in_map, list_elem_of_In, Hb'.
    + exfalso. apply Hx. rewrite <- Hid.
      apply list_elem_of_In, in_map, list_elem_of_In, Hb.
    + apply IH; assumption.
Qed.

Lemma elem_of_insert_inv {A : Type} (l : list A) (k : nat) (x y : A) :
  x ∈ <[k := y]> l -> x = y \/ x ∈ l.
Proof.
  revert k. induction l as [|a l IH]; intros [|k]; simpl; intros H.
  - inversion H.
  - inversion H.
  - apply elem_of_cons in H as [->|H]; [left; reflexivity | right; right; exact H].
  - apply elem_of_cons in H as [->|H]; [right; left|].
    destruct (IH k H) as [->|Hin]; [left; reflexivity | right; right; exact Hin].
Qed.

(** X7.  No step changes [createdAt] of a bill that stays in the store:
    with unique ids, a bill of the new state that has the id of a bill of
    the old state has its [createdAt]. *)
Theorem step_keeps_createdAt (e : Env) (op : Op) (bills : list Bill)
  (b b' : Bill) :
  NoDup (map id bills) ->
  b ∈ bills -> b' ∈ step e op bills -> id b' = id b ->
  createdAt b' = createdAt b.
Proof.
  intros Hnd Hb Hb' Hid.
  assert (Hsame : b' ∈ bills -> createdAt b' = createdAt b).
  { intros Hin. f_equal. apply (same_id_same_bill bills); assumption. }
  destruct op as [f|i|i]; simpl in Hb'.
  - destruct (upsert_cases e f bills)
      as [Heq|[(k & old & Hold & Hold_id & Heq)|(Habs & Heq)]];
      rewrite Heq in Hb'.
    + apply Hsame, Hb'.
    + apply elem_of_insert_inv in Hb' as [->|Hin]; [|apply Hsame, Hin].
      simpl in *. f_equal. apply (same_id_same_bill bills); try assumption.
      * apply list_elem_of_lookup. eauto.
      * congruence.
    + apply elem_of_app in Hb' as [Hin|Hin]; [apply Hsame, Hin|].
      apply list_elem_of_singleton in Hin. subst b'. simpl in Hid.
      exfalso. apply (Habs b Hb). symmetry. exact Hid.
  - destruct (delete_cases e i bills) as [Heq|(k & Heq)]; rewrite Heq in Hb'.
    + apply Hsame, Hb'.
    + apply Hsame. eapply elem_of_sublist; [exact Hb' | apply sublist_delete].
  - destruct (toggle_cases e i bills) as [Heq|(k & c & Hc & _ & Heq)];
      rewrite Heq in Hb'.
    + apply Hsame, Hb'.
    + destruct (togglePaid_store e k c bills) as (c' & Hst & Hsm).
      rewrite Hst in Hb'.
      apply elem_of_insert_inv in Hb' as [->|Hin]; [|apply Hsame, Hin].
      destruct Hsm as (Hcid & _ & _ & _ & _ & Hcreated).
      rewrite Hcreated. f_equal.
      apply (same_id_same_bill bills); try assumption.
      * apply list_elem_of_lookup. eauto.
      * congruence.
Qed.

Lemma step_keeps_createdAt_witness :
  createdAt (mkBill "a" "Rent 2" 1200 "2024-07-01" yearly None true
                    "2024-05-01T00:00:00.000Z" "2024-06-10T09:30:00.000Z")
  = "2024-05-01T00:00:00.000Z".
Proof.
  apply (step_keeps_createdAt (utc june10)
           (Upsert (form "a" "Rent 2" "1200" "2024-07-01" yearly))
           [bill "a" "Rent" 100 "2024-06-08" none true]
           (bill "a" "Rent" 100 "2024-06-08" none true)).
  - apply (NoDup_cons_2 "a" []); [|constructor].
    intros H. inversion H.
  - apply list_elem_of_here.
  - vm_compute. apply list_elem_of_here.
  - reflexivity.
Defined.

(** X8.  A toggle keeps the length and the order of the store, leaves
    every bill with another id exactly as it was, and changes at most
    [paid], [dueDate] and [updatedAt] of the bill it finds. *)
Theorem toggle_frame (e : Env) (i : string) (bills : list Bill) :
  let bills' := step e (TogglePaid i) bills in
  List.length bills' = List.length bills
  /\ map id bills' = map id bills
  /\ forall k b, bills !! k = Some b ->
       exists b', bills' !! k = Some b' /\ sameIdentity b b'
                  /\ (id b <> i -> b' = b).
Proof.
  cbv zeta. simpl.
  assert (Hrefl : forall b, sameIdentity b b) by (intros b; repeat split).
  destruct (toggle_cases e i bills) as [->|(k & c & Hc & Hci & ->)].
  { simpl. split; [reflexivity|]. split; [reflexivity|]. eauto. }
  destruct (togglePaid_store e k c bills) as (c' & -> & Hsm).
  split; [apply length_insert|]. split.
  - apply (map_insert_same id bills k c c' Hc). apply Hsm.
  - intros j b Hb. destruct (Nat.eq_dec j k) as [->|Hjk].
    + rewrite Hc in Hb. injection Hb as <-. exists c'.
      split; [apply list_lookup_insert_eq; eapply lookup_lt_Some; eauto|].
      split; [exact Hsm | intros Hne; contradiction].
    + exists b. split; [rewrite list_lookup_insert_ne by congruence; exact Hb|].
      split; [apply Hrefl | reflexivity].
Qed.

End StoreInvariants.

(** ** How the store operations compose *)
Module StoreAlgebra.
Import JS Main Spec Samples JSFacts StoreFacts LifecycleFacts Page PageSpec
       PageSamples StoreInvariants.

Lemma findIndex_ext {A : Type} (p : A -> bool) (l l' : list A) :
  map p l = map p l' -> findIndex p l = findIndex p l'.
Proof.
  revert l'. induction l as [|x l IH]; intros [|y l']; simpl; try discriminate.
  - reflexivity.
  - intros [= Hxy Hl]. rewrite Hxy, (IH l' Hl). reflexivity.
Qed.

Lemma findIndex_insert (i : string) (l : list Bill) (k : nat) (b b' : Bill) :
  l !! k = Some b -> id b' = id b ->
  findIndex (hasId i) (<[k := b']> l) = findIndex (hasId i) l.
Proof.
  intros Hb Hid. apply findIndex_ext.
  apply (map_insert_same (hasId i) l k b b' Hb).
  unfold hasId. rewrite Hid. reflexivity.
Qed.

Lemma findIndex_snoc {A : Type} (p : A -> bool) (l : list A) (y : A) :
  findIndex p l < 0 -> p y = true ->
  findIndex p (l ++ [y]) = Z.of_nat (List.length l).
Proof.
  induction l as [|x l IH]; simpl; intros Habs Hy.
  - rewrite Hy. reflexivity.
  - destruct (p x); [lia|].
    destruct (Z.ltb_spec (findIndex p l) 0) as [Hlt|Hge]; [|lia].
    rewrite (IH Hlt Hy).
    destruct (Z.ltb_spec (Z.of_nat (List.length l)) 0); lia.
Qed.

(** The index at which the handlers find a bill of a store with unique
    ids. *)
Lemma unique_findIndex (bills : list Bill) (b : Bill) :
  NoDup (map id bills) -> b ∈ bills ->
  exists k, bills !! k = Some b
            /\ findIndex (hasId (id b)) bills = Z.of_nat k.
Proof.
  intros Hnd Hb.
  destruct (present_findIndex (id b) bills) as (k & old & Hk & Hold & Hid & _);
    [eauto|].
  exists k. split; [|exact Hk].
  rewrite Hold. f_equal.
  apply (same_id_same_bill bills); try assumption.
  apply list_elem_of_lookup. eauto.
Qed.

(** X9.  Toggling a one-off bill twice gives back the store, except for
    [updatedAt] of that bill: marking paid and marking unpaid undo each
    other. *)
Theorem toggle_twice_one_off (e1 e2 : Env) (bills : list Bill) (b : Bill) :
  NoDup (map id bills) -> b ∈ bills -> id b <> "" -> recurrence b = none ->
  exists k,
    bills !! k = Some b
    /\ step e2 (TogglePaid (id b)) (step e1 (TogglePaid (id b)) bills)
       = <[k := set_updatedAt (isoString (now e2)) b]> bills.
Proof.
  intros Hnd Hb Hid Hr.
  destruct (unique_findIndex bills b Hnd Hb) as (k & Hk & Hfind).
  exists k. split; [exact Hk|]. simpl.
  rewrite (click_toggle e1 (id b) bills k b Hid Hfind Hk).
  assert (Hlt : (k < List.length bills)%nat) by (eapply lookup_lt_Some; eauto).
  destruct (paid b) eqn:Hp.
  - rewrite (togglePaid_unpay e1 k b bills Hp). simpl.
    set (b1 := set_updatedAt (isoString (now e1)) (set_paid false b)).
    rewrite (click_toggle e2 (id b) (<[k := b1]> bills) k b1 Hid);
      [|rewrite (findIndex_insert (id b) bills k b b1 Hk eq_refl); exact Hfind
       |apply list_lookup_insert_eq, Hlt].
    rewrite (togglePaid_one_off e2 k b1 _ eq_refl Hr). simpl.
    rewrite list_insert_insert_eq. f_equal.
    destruct b; simpl in *. subst. reflexivity.
  - rewrite (togglePaid_one_off e1 k b bills Hp Hr). simpl.
    set (b1 := set_updatedAt (isoString (now e1)) (set_paid true b)).
    rewrite (click_toggle e2 (id b) (<[k := b1]> bills) k b1 Hid);
      [|rewrite (findIndex_insert (id b) bills k b b1 Hk eq_refl); exact Hfind
       |apply list_lookup_insert_eq, Hlt].
    rewrite (togglePaid_unpay e2 k b1 _ eq_refl). simpl.
    rewrite list_insert_insert_eq. f_equal.
    destruct b; simpl in *. subst. reflexivity.
Qed.

Lemma toggle_twice_one_off_witness :
  step (utc june10) (TogglePaid "a")
       (step (utc june1) (TogglePaid "a")
             [bill "a" "Rent" 100 "2024-06-08" none false])
  = [mkBill "a" "Rent" 100 "2024-06-08" none None false
            "2024-05-01T00:00:00.000Z" "2024-06-10T09:30:00.000Z"].
Proof.
  destruct (toggle_twice_one_off (utc june1) (utc june10)
              [bill "a" "Rent" 100 "2024-06-08" none false]
              (bill "a" "Rent" 100 "2024-06-08" none false))
    as (k & Hk & H).
  - apply (NoDup_cons_2 "a" []); [|constructor]. intros H. inversion H.
  - apply list_elem_of_here.
  - discriminate.
  - reflexivity.
  - simpl id in H. rewrite H.
    destruct k as [|k]; [reflexivity | discriminate Hk].
Defined.

(** X10.  Adding a bill and deleting it again gives back the store: an
    accepted form with a new, non-empty id followed by a confirmed delete
    of that id leaves the bills as they were. *)
Theorem upsert_then_delete (e e' : Env) (f : Form) (bills : list Bill) :
  validateBillForm e f = None ->
  (forall b, b ∈ bills -> id b <> formId e f) ->
  formId e f <> "" -> confirmAnswer e' = true ->
  step e' (Delete (formId e f)) (step e (Upsert f) bills) = bills.
Proof.
  intros Hv Habs Hid Hc. simpl.
  apply absent_findIndex in Habs.
  rewrite (upsert_insert e f bills Hv Habs). simpl.
  rewrite (click_delete e' (formId e f) _ (List.length bills)
             (formRecord e f None) Hid).
  - unfold deleteBill. rewrite Hc. simpl.
    rewrite (delete_middle bills [] (formRecord e f None)). apply app_nil_r.
  - apply findIndex_snoc; [exact Habs|]. apply hasId_true. reflexivity.
  - rewrite lookup_app_r by lia. rewrite Nat.sub_diag. reflexivity.
Qed.

Lemma upsert_then_delete_witness :
  step (utc june10) (Delete "00000000-0000-4000-8000-000000000000")
       (step (utc june1) (Upsert (form "" "Gym" "50" "2024-06-08" monthly))
             [bill "a" "Rent" 100 "2024-06-08" none false])
  = [bill "a" "Rent" 100 "2024-06-08" none false].
Proof.
  apply (upsert_then_delete (utc june1) (utc june10)
           (form "" "Gym" "50" "2024-06-08" monthly)
           [bill "a" "Rent" 100 "2024-06-08" none false]).
  - reflexivity.
  - intros b Hb. apply list_elem_of_singleton in Hb. subst b. discriminate.
  - discriminate.
  - reflexivity.
Defined.

Lemma formId_explicit (e : Env) (f : Form) : idEl f <> "" -> formId e f = idEl f.
Proof.
  intros H. unfold formId. apply String.eqb_neq in H. rewrite H. reflexivity.
Qed.

(** After an accepted upsert the record of the form sits where the
    handlers will find it. *)
Lemma upsert_stored (e : Env) (f : Form) (bills : list Bill) :
  validateBillForm e f = None ->
  exists k old,
    let r := formRecord e f old in
    step e (Upsert f) bills !! k = Some r
    /\ findIndex (hasId (formId e f)) (step e (Upsert f) bills) = Z.of_nat k.
Proof.
  intros Hv. simpl.
  destruct (Z.ltb_spec (findIndex (hasId (formId e f)) bills) 0) as [Hlt|Hge].
  - exists (List.length bills), None. rewrite (upsert_insert e f bills Hv Hlt).
    simpl. split.
    + rewrite lookup_app_r by lia. rewrite Nat.sub_diag. reflexivity.
    + apply findIndex_snoc; [exact Hlt | apply hasId_true; reflexivity].
  - destruct (findIndex_found _ _ Hge) as (old & Hold & Hp & _).
    exists (Z.to_nat (findIndex (hasId (formId e f)) bills)), (Some old).
    rewrite (upsert_update e f bills
               (Z.to_nat (findIndex (hasId (formId e f)) bills)) old Hv);
      [|lia | exact Hold].
    simpl. split.
    + apply list_lookup_insert_eq. eapply lookup_lt_Some; eauto.
    + rewrite (findIndex_insert (formId e f) bills _ old _ Hold); [lia|].
      simpl. symmetry. apply hasId_true, Hp.
Qed.

(** X11.  Submitting an accepted edit form a second time never adds a
    bill: the ids of the store stay the same, and at the same instant the
    second submit changes nothing at all. *)
Theorem resubmit_same_form (e e2 : Env) (f : Form) (bills : list Bill) :
  validateBillForm e f = None -> idEl f <> "" ->
  step e (Upsert f) (step e (Upsert f) bills) = step e (Upsert f) bills
  /\ map id (step e2 (Upsert f) (step e (Upsert f) bills))
     = map id (step e (Upsert f) bills).
Proof.
  intros Hv Hid.
  destruct (upsert_stored e f bills Hv) as (k & old & Hk & Hfind).
  cbv zeta in Hk.
  set (S1 := step e (Upsert f) bills) in *.
  split.
  - change (step e (Upsert f) S1)
      with (store (snd (upsertBillFromForm e f S1))).
    rewrite (upsert_update e f S1 k (formRecord e f old) Hv Hfind Hk). simpl.
    apply list_insert_id. rewrite Hk. reflexivity.
  - change (step e2 (Upsert f) S1)
      with (store (snd (upsertBillFromForm e2 f S1))).
    destruct (validateBillForm e2 f) as [msg|] eqn:Hv2.
    + rewrite (upsert_rejected e2 f S1 msg Hv2). reflexivity.
    + assert (Hsame : formId e2 f = formId e f)
        by (rewrite !formId_explicit by exact Hid; reflexivity).
      rewrite (upsert_update e2 f S1 k (formRecord e f old) Hv2);
        [|rewrite Hsame; exact Hfind | exact Hk].
      simpl. apply (map_insert_same id S1 k (formRecord e f old) _ Hk).
      simpl. exact Hsame.
Qed.

Lemma resubmit_same_form_witness :
  let f := form "a" "Rent" "1200" "2024-07-01" yearly in
  List.length (step (utc june10) (Upsert f) (step (utc june1) (Upsert f) []))
  = 1%nat.
Proof.
  intros f.
  destruct (resubmit_same_form (utc june1) (utc june10) f [] eq_refl) as [_ H].
  - discriminate.
  - rewrite <- (length_map id), H. reflexivity.
Defined.

(** *** Deletes *)

Lemma NoDup_map_filter {A B : Type} (f : A -> B) (p : A -> bool) (l : list A) :
  NoDup (map f l) -> NoDup (map f (List.filter p l)).
Proof.
  induction l as [|x l IH]; simpl; [trivial|].
  intros Hnd. apply NoDup_cons in Hnd as [Hx Hnd].
  destruct (p x); simpl; [|apply IH, Hnd].
  apply NoDup_cons. split; [|apply IH, Hnd].
  intros Hin. apply Hx.
  apply list_elem_of_In, in_map_iff in Hin as (y & Hy & Hin).
  apply filter_In in Hin as [Hin _].
  apply list_elem_of_In, in_map_iff. eauto.
Qed.

Lemma filter_swap {A : Type} (p q : A -> bool) (l : list A) :
  List.filter p (List.filter q l) = List.filter q (List.filter p l).
Proof.
  induction l as [|x l IH]; simpl; [reflexivity|].
  destruct (p x) eqn:Hp, (q x) eqn:Hq; simpl; rewrite ?Hp, ?Hq, IH; reflexivity.
Qed.

(** A confirmed delete on a store with unique ids is a filter. *)
Lemma delete_step_filter (e : Env) (i : string) (bills : list Bill) :
  NoDup (map id bills) -> confirmAnswer e = true -> i <> "" ->
  step e (Delete i) bills = List.filter (fun b => negb (hasId i b)) bills.
Proof.
  intros Hnd Hc Hi. simpl.
  destruct (Z.ltb_spec (findIndex (hasId i) bills) 0) as [Hlt|Hge].
  - pose proof (proj2 (absent_findIndex i bills) Hlt) as Habs.
    rewrite (click_absent e i "delete" bills Habs). simpl.
    symmetry. apply filter_all, Forall_forall. intros b Hb.
    apply negb_true_iff, hasId_false, Habs, Hb.
  - destruct (findIndex_found _ _ Hge) as (b & Hb & Hp & _).
    rewrite (click_delete e i bills (Z.to_nat (findIndex (hasId i) bills)) b Hi);
      [|lia | exact Hb].
    unfold deleteBill. rewrite Hc. simpl.
    apply (delete_is_filter i bills _ b Hnd Hb). apply hasId_true, Hp.
Qed.

(** X12.  Confirmed deletes commute: on a store with unique ids, deleting
    two ids in either order gives the same store. *)
Theorem deletes_commute (e1 e2 : Env) (i j : string) (bills : list Bill) :
  NoDup (map id bills) ->
  confirmAnswer e1 = true -> confirmAnswer e2 = true ->
  step e1 (Delete i) (step e2 (Delete j) bills)
  = step e2 (Delete j) (step e1 (Delete i) bills).
Proof.
  intros Hnd H1 H2.
  destruct (String.eqb_spec i "") as [->|Hi]; [reflexivity|].
  destruct (String.eqb_spec j "") as [->|Hj]; [reflexivity|].
  rewrite (delete_step_filter e2 j bills Hnd H2 Hj).
  rewrite (delete_step_filter e1 i bills Hnd H1 Hi).
  rewrite (delete_step_filter e1 i); [|apply NoDup_map_filter, Hnd | exact H1 | exact Hi].
  rewrite (delete_step_filter e2 j); [|apply NoDup_map_filter, Hnd | exact H2 | exact Hj].
  apply filter_swap.
Qed.

Lemma deletes_commute_witness :
  let bs := [bill "a" "Rent" 100 "2024-06-08" none true;
             bill "b" "Gym" 50 "2024-06-20" none false;
             bill "c" "Net" 50 "2024-06-21" monthly false] in
  step (utc june1) (Delete "a") (step (utc june10) (Delete "c") bs)
  = [bill "b" "Gym" 50 "2024-06-20" none false]
  /\ step (utc june10) (Delete "c") (step (utc june1) (Delete "a") bs)
     = [bill "b" "Gym" 50 "2024-06-20" none false].
Proof.
  intros bs.
  assert (Hnd : NoDup (map id bs)).
  { simpl. repeat (apply NoDup_cons; split); try constructor;
      intros H; apply list_elem_of_In in H; simpl in H; intuition discriminate. }
  split.
  - reflexivity.
  - rewrite <- (deletes_commute (utc june1) (utc june10) "a" "c" bs Hnd
                  eq_refl eq_refl).
    reflexivity.
Defined.

(** *** Edit *)

(** X13.  Opening a stored bill in the form and submitting it unchanged
    only refreshes [updatedAt]: every other field, the position and the
    rest of the store stay as they were.  This needs the bill to be what
    validation produces, a due date of the 4-2-2 shape, and an engine
    whose [Number] reads back what [String] printed for the amount. *)
Theorem edit_unchanged (e : Env) (toString : float -> string)
  (bills : list Bill) (b : Bill) :
  NoDup (map id bills) -> b ∈ bills -> wellFormed b -> id b <> "" ->
  RegExp_test dateRegex (dueDate b) = true ->
  StringToNumber e (toString (amount b)) = amount b ->
  exists k,
    bills !! k = Some b
    /\ upsertBillFromForm e (fillForm toString b) bills
       = (true, mkOutcome (<[k := set_updatedAt (isoString (now e)) b]> bills) []).
Proof.
  intros Hnd Hb (Hn & Htrim & Hfin & Hpos & Hle & Hnotes) Hid Hdue Hnum.
  destruct (unique_findIndex bills b Hnd Hb) as (k & Hk & Hfind).
  exists k. split; [exact Hk|].
  assert (Hmoney : parseMoney e (toString (amount b)) = amount b).
  { unfold parseMoney. cbv zeta. rewrite Hnum, Hfin. unfold Math_max.
    assert (PrimFloat.is_nan (amount b) = false) as ->.
    { unfold Number_isFinite in Hfin.
      apply negb_true_iff, orb_false_iff in Hfin. apply Hfin. }
    change (PrimFloat.is_nan 0) with false. simpl. rewrite Hpos. reflexivity. }
  assert (Hv : validateBillForm e (fillForm toString b) = None).
  { apply validateBillForm_accepts. simpl.
    rewrite Htrim, Hmoney. repeat split; assumption. }
  assert (Hfid : formId e (fillForm toString b) = id b)
    by (apply formId_explicit; exact Hid).
  rewrite (upsert_update e (fillForm toString b) bills k b Hv);
    [|rewrite Hfid; exact Hfind | exact Hk].
  do 3 f_equal. unfold formRecord. cbv zeta. rewrite Hfid. simpl.
  rewrite Htrim, Hmoney.
  assert ((if String.eqb (trim (default "" (notes b))) ""
           then None else Some (trim (default "" (notes b)))) = notes b) as ->.
  { destruct (notes b) as [n|]; simpl; [|reflexivity].
    destruct Hnotes as [Hne ->]. apply String.eqb_neq in Hne. rewrite Hne.
    reflexivity. }
  destruct b; reflexivity.
Qed.

Lemma edit_unchanged_witness :
  let b := bill "a" "Rent" 100 "2024-06-08" none true in
  upsertBillFromForm (utc june10) (fillForm plainString b) [b]
  = (true,
     mkOutcome [mkBill "a" "Rent" 100 "2024-06-08" none None true
                       "2024-05-01T00:00:00.000Z" "2024-06-10T09:30:00.000Z"]
               []).
Proof.
  intros b.
  destruct (edit_unchanged (utc june10) plainString [b] b) as (k & Hk & ->).
  - apply (NoDup_cons_2 "a" []); [|constructor]. intros H. inversion H.
  - apply list_elem_of_here.
  - repeat split; try reflexivity; discriminate.
  - discriminate.
  - reflexivity.
  - reflexivity.
  - destruct k as [|k]; [reflexivity | discriminate Hk].
Defined.

End StoreAlgebra.

(** ** More on the view and the reminder *)
Module ViewAlgebra.
Import JS Main Spec Samples JSFacts DateFacts ViewFacts Page PageSpec.

Lemma filter_filter {A : Type} (p q : A -> bool) (l : list A) :
  List.filter p (List.filter q l) = List.filter (fun x => q x && p x) l.
Proof.
  induction l as [|x l IH]; simpl; [reflexivity|].
  destruct (q x); simpl; [destruct (p x); rewrite IH; reflexivity | exact IH].
Qed.

Lemma filter_none {A : Type} (p : A -> bool) (l : list A) :
  (forall x, p x = false) -> List.filter p l = [].
Proof.
  intros H. induction l as [|x l IH]; simpl; [reflexivity|].
  rewrite H. exact IH.
Qed.

(** The status filters on top of the text match. *)
Lemma renderFilter_unpaid (e : Env) (q : string) (b : Bill) :
  renderFilter e q "unpaid" b = renderFilter e q "all" b && negb (paid b).
Proof.
  unfold renderFilter. cbv zeta.
  destruct (includes (toLowerCase (name b)) q
            || includes (toLowerCase (default "" (notes b))) q);
    reflexivity.
Qed.

Lemma renderFilter_paid (e : Env) (q : string) (b : Bill) :
  renderFilter e q "paid" b = renderFilter e q "all" b && paid b.
Proof.
  unfold renderFilter. cbv zeta.
  destruct (includes (toLowerCase (name b)) q
            || includes (toLowerCase (default "" (notes b))) q);
    reflexivity.
Qed.

Lemma render_total (e : Env) (s status : string) (bills : list Bill) :
  total (render e s status bills)
  = fold_left (fun sum b => PrimFloat.add sum (amount b))
              (List.filter (fun b => renderFilter e (toLowerCase s) status b
                                     && negb (paid b)) bills)
              0%float.
Proof.
  unfold render. cbv zeta. simpl total.
  rewrite unpaid_total, filter_filter. reflexivity.
Qed.

(** X14.  The unpaid total does not depend on whether paid bills are
    shown: it is the same under the filters [unpaid] and [all], and it is
    zero under the filter [paid]. *)
Theorem total_ignores_paid (e : Env) (s : string) (bills : list Bill) :
  total (render e s "unpaid" bills) = total (render e s "all" bills)
  /\ total (render e s "paid" bills) = 0%float.
Proof.
  rewrite !render_total. split.
  - f_equal. apply filter_ext. intros b. rewrite renderFilter_unpaid.
    destruct (renderFilter e (toLowerCase s) "all" b), (paid b); reflexivity.
  - rewrite filter_none; [reflexivity|].
    intros b. rewrite renderFilter_paid.
    destruct (renderFilter e (toLowerCase s) "all" b), (paid b); reflexivity.
Qed.

Lemma render_count (e : Env) (s status : string) (bills : list Bill) :
  count (render e s status bills)
  = List.length (List.filter (renderFilter e (toLowerCase s) status) bills).
Proof. reflexivity. Qed.

Lemma length_filter_split {A : Type} (p q r : A -> bool) (l : list A) :
  (forall x, q x = p x && r x) ->
  List.length (List.filter p l)
  = (List.length (List.filter q l)
     + List.length (List.filter (fun x => p x && negb (r x)) l))%nat.
Proof.
  intros Hq. induction l as [|x l IH]; simpl; [reflexivity|].
  rewrite Hq. destruct (p x), (r x); simpl; lia.
Qed.

Lemma length_filter_disjoint {A : Type} (p q r : A -> bool) (l : list A) :
  (forall x, p x = true -> r x = true) ->
  (forall x, q x = true -> r x = true) ->
  (forall x, p x = true -> q x = true -> False) ->
  (List.length (List.filter p l) + List.length (List.filter q l)
   <= List.length (List.filter r l))%nat.
Proof.
  intros Hp Hq Hpq. induction l as [|x l IH]; simpl; [lia|].
  specialize (Hp x). specialize (Hq x). specialize (Hpq x).
  destruct (p x), (q x), (r x); simpl; try lia;
    try (exfalso; auto; fail);
    try (specialize (Hp eq_refl); discriminate);
    try (specialize (Hq eq_refl); discriminate).
Qed.

Lemma renderFilter_due_unpaid (e : Env) (q : string) (b : Bill) :
  renderFilter e q "due" b = true -> renderFilter e q "unpaid" b = true.
Proof.
  unfold renderFilter. cbv zeta.
  destruct (includes (toLowerCase (name b)) q
            || includes (toLowerCase (default "" (notes b))) q);
    simpl; [|trivial].
  destruct (paid b); simpl; [discriminate | trivial].
Qed.

Lemma renderFilter_overdue_unpaid (e : Env) (q : string) (b : Bill) :
  renderFilter e q "overdue" b = true -> renderFilter e q "unpaid" b = true.
Proof.
  unfold renderFilter. cbv zeta.
  destruct (includes (toLowerCase (name b)) q
            || includes (toLowerCase (default "" (notes b))) q);
    simpl; [|trivial].
  destruct (paid b); simpl; [discriminate | trivial].
Qed.

Lemma renderFilter_due_not_overdue (e : Env) (q : string) (b : Bill) :
  renderFilter e q "due" b = true -> renderFilter e q "overdue" b = true ->
  False.
Proof.
  unfold renderFilter. cbv zeta.
  destruct (includes (toLowerCase (name b)) q
            || includes (toLowerCase (default "" (notes b))) q);
    simpl; [|discriminate].
  destruct (paid b); simpl; [discriminate|].
  destruct (daysUntil e (dueDate b)) as [d|]; simpl; [|discriminate].
  rewrite andb_true_iff, Z.leb_le, Z.ltb_lt. lia.
Qed.

(** X15.  Under one search text the filters [paid] and [unpaid] split the
    bills shown under [all], and the filters [due] and [overdue] show
    disjoint parts of what [unpaid] shows: the counts add up
    accordingly. *)
Theorem counts_partition (e : Env) (s : string) (bills : list Bill) :
  count (render e s "all" bills)
  = (count (render e s "paid" bills) + count (render e s "unpaid" bills))%nat
  /\ (count (render e s "due" bills) + count (render e s "overdue" bills)
      <= count (render e s "unpaid" bills))%nat.
Proof.
  rewrite !render_count. split.
  - rewrite (length_filter_split _ (renderFilter e (toLowerCase s) "paid")
               paid bills);
      [|intros b; apply renderFilter_paid].
    do 2 f_equal. apply filter_ext. intros b. symmetry.
    apply renderFilter_unpaid.
  - apply length_filter_disjoint.
    + apply renderFilter_due_unpaid.
    + apply renderFilter_overdue_unpaid.
    + apply renderFilter_due_not_overdue.
Qed.

(** *** Narrowing the search *)

Lemma string_app_assoc (a b c : string) : (a ++ b) ++ c = a ++ b ++ c.
Proof. induction a as [|x a IH]; simpl; [reflexivity | rewrite IH; reflexivity]. Qed.

(** A text that occurs in a part of [s] occurs in [s]. *)
Lemma includes_trans (s q' q : string) :
  includes s q' = true -> includes q' q = true -> includes s q = true.
Proof.
  rewrite !includes_substring. intros (pre & post & ->) (a & c & ->).
  exists (pre ++ a), (c ++ post). rewrite !string_app_assoc. reflexivity.
Qed.

Lemma filter_sublist_impl {A : Type} (p q : A -> bool) (l : list A) :
  (forall x, p x = true -> q x = true) ->
  List.filter p l `sublist_of` List.filter q l.
Proof.
  intros H. induction l as [|x l IH]; simpl; [constructor|].
  destruct (p x) eqn:Hp.
  - rewrite (H x Hp). apply sublist_skip, IH.
  - destruct (q x); [apply sublist_cons, IH | exact IH].
Qed.

(** The filter of [render] for a query that contains another one. *)
Lemma renderFilter_narrows (e : Env) (q q' status : string) (b : Bill) :
  includes q' q = true ->
  renderFilter e q' status b = true -> renderFilter e q status b = true.
Proof.
  intros Hq. unfold renderFilter. cbv zeta.
  destruct (includes (toLowerCase (name b)) q') eqn:Hn.
  - rewrite (includes_trans _ _ _ Hn Hq). simpl. trivial.
  - destruct (includes (toLowerCase (default "" (notes b))) q') eqn:Ht;
      simpl; [|discriminate].
    rewrite (includes_trans _ _ _ Ht Hq), orb_true_r. simpl. trivial.
Qed.

(** X16.  Narrowing the search never shows more: when the lower-cased
    previous search text occurs in the lower-cased new one, the bills
    shown for the new text are, in order, among the bills shown before,
    under every status filter.  (Only that [includes] looks for a part of
    the text is used, nothing about [toLowerCase].) *)
Theorem longer_query_narrows (e : Env) (s s' status : string)
  (bills : list Bill) :
  includes (toLowerCase s') (toLowerCase s) = true ->
  map fst (rows (render e s' status bills))
  `sublist_of` map fst (rows (render e s status bills)).
Proof.
  intros Hq. unfold render. cbv zeta. simpl rows. rewrite !map_fst_pair.
  apply filter_sublist_impl. intros b. apply renderFilter_narrows, Hq.
Qed.

Lemma longer_query_narrows_witness :
  map fst (rows (render (utc june1) "RENT" "all"
                   [bill "a" "Rent" 100 "2024-06-08" none true;
                    bill "b" "Parent fee" 50 "2024-06-20" none false]))
  `sublist_of`
  map fst (rows (render (utc june1) "ren" "all"
                   [bill "a" "Rent" 100 "2024-06-08" none true;
                    bill "b" "Parent fee" 50 "2024-06-20" none false])).
Proof.
  apply (longer_query_narrows (utc june1) "ren" "RENT" "all").
  vm_compute. reflexivity.
Defined.

(** *** A due date the engine cannot parse *)

(** X17.  An unpaid bill whose due date the engine cannot parse is shown
    with the class "ok" and the text "NaNd ago"; the filters [due] and
    [overdue] never show it and the reminder never selects it. *)
Theorem unparsed_due_date (e : Env) (q : string) (b : Bill) :
  Date_parse (strictDates e) (dueDate b) = None -> paid b = false ->
  dueClass e b = "ok"
  /\ dueAgo (daysUntil e (dueDate b)) = "NaNd ago"
  /\ renderFilter e q "due" b = false
  /\ renderFilter e q "overdue" b = false
  /\ dueNowFilter e b = false.
Proof.
  intros Hd Hp. pose proof (daysUntil_unparsed e (dueDate b) Hd) as Hnan.
  unfold dueClass, dueNowFilter, renderFilter. cbv zeta.
  rewrite Hnan, Hp. simpl.
  repeat split;
    destruct (includes (toLowerCase (name b)) q
              || includes (toLowerCase (default "" (notes b))) q);
    reflexivity.
Qed.

Lemma unparsed_due_date_witness :
  let b := bill "a" "Rent" 1200 "2024-13-45" monthly false in
  dueClass (utc june1) b = "ok" /\ dueNowFilter (utc june1) b = false.
Proof.
  intros b.
  destruct (unparsed_due_date (utc june1) "" b eq_refl eq_refl)
    as (H1 & _ & _ & _ & H5).
  split; assumption.
Defined.

(** *** The reminder and the permission *)

Lemma dueNowFilter_reminder (e : Env) (b : Bill) :
  dueNowFilter e b = true <-> dueReminder e b.
Proof.
  unfold dueNowFilter, dueReminder. cbv zeta.
  destruct (paid b).
  - split; [discriminate | intros [H _]; discriminate].
  - rewrite andb_comm, num_range.
    split; [intros H; split; [reflexivity | exact H] | intros [_ H]; exact H].
Qed.

(** X18.  A reminder is sent exactly when permission is or becomes
    granted and at least one unpaid bill is due today or up to three days
    ago.  Permission holds when the first check says so or, failing
    that, the request answers "granted"; a check or request that throws
    counts as a refusal. *)
Theorem reminder_sent (e : Env) (granted : Completion bool)
  (request : Completion string) (bills : list Bill) :
  (ensureNotifPermission granted request = true
   <-> granted = Returned true
       \/ (granted = Returned false /\ request = Returned "granted"))
  /\ (maybeNotifyDue e (ensureNotifPermission granted request) bills <> None
      <-> ensureNotifPermission granted request = true
          /\ exists b, b ∈ bills /\ dueReminder e b).
Proof.
  split.
  - unfold ensureNotifPermission.
    destruct granted as [[|]|err].
    + split; [auto | reflexivity].
    + destruct request as [p|err].
      * rewrite String.eqb_eq. split.
        -- intros ->. right. split; reflexivity.
        -- intros [H|[_ H]]; [discriminate | congruence].
      * split; [discriminate | intros [H|[_ H]]; discriminate].
    + split; [discriminate | intros [H|[H _]]; discriminate].
  - unfold maybeNotifyDue. cbv zeta.
    destruct (ensureNotifPermission granted request); simpl negb; cbv iota.
    + destruct (dueNow e bills) as [|b l] eqn:Hdue; simpl Nat.eqb; cbv iota.
      * split; [congruence|]. intros [_ (b & Hb & Hr)]. exfalso.
        assert (Hin : b ∈ dueNow e bills).
        { unfold dueNow. apply list_elem_of_In, filter_In.
          split; [apply list_elem_of_In, Hb|].
          apply dueNowFilter_reminder, Hr. }
        rewrite Hdue in Hin. inversion Hin.
      * split; [|discriminate]. intros _. split; [reflexivity|].
        exists b.
        assert (Hin : b ∈ dueNow e bills) by (rewrite Hdue; apply list_elem_of_here).
        unfold dueNow in Hin. apply list_elem_of_In, filter_In in Hin as [Hin Hb].
        split; [apply list_elem_of_In, Hin|].
        apply dueNowFilter_reminder, Hb.
    + split; [congruence | intros [H _]; discriminate].
Qed.

End ViewAlgebra.

(** ** More on dates: the clock, the time zone, the next occurrence *)
Module DateAlgebra.
Import JS Main Spec Samples JSFacts DateFacts ViewFacts StoreFacts Page PageSpec.

(** What [Date_parse] returns, when it returns. *)
Lemma Date_parse_some (strict : bool) (s : string) (t : Z) :
  Date_parse strict s = Some t ->
  exists y m d,
    dateOnlyFields s = Some (y, m, d)
    /\ 0 <= y <= 9999 /\ 1 <= m <= 12 /\ 1 <= d <= 31
    /\ t = MakeDay y (m - 1) d * msPerDay.
Proof.
  unfold Date_parse.
  destruct (dateOnlyFields s) as [[[y m] d]|] eqn:Hf; [|discriminate].
  destruct ((1 <=? m) && (m <=? 12) && (1 <=? d)
            && (d <=? (if strict then DaysInMonth y m else 31))) eqn:Hc;
    [|discriminate].
  rewrite !andb_true_iff, !Z.leb_le in Hc.
  pose proof (DaysInMonth_range y m).
  pose proof (dateOnlyFields_range s y m d Hf) as (Hy & _ & _).
  unfold TimeClip, MakeDate. rewrite Z.add_0_r.
  destruct (Z.abs (MakeDay y (m - 1) d * msPerDay) <=? 8640000000000000);
    [|discriminate].
  intros [= <-]. exists y, m, d.
  repeat split; try lia; try (destruct strict; lia).
Qed.

Lemma Date_parse_range (strict : bool) (s : string) (t : Z) :
  Date_parse strict s = Some t ->
  -8000000000000000 <= t <= 8000000000000000.
Proof.
  intros H. destruct (Date_parse_some strict s t H)
    as (y & m & d & _ & Hy & Hm & Hd & ->).
  pose proof (MakeDay_range y (m - 1) d Hy ltac:(lia) Hd).
  unfold msPerDay. lia.
Qed.



(** X20.  The day count depends on the clock only through the local
    calendar day: two clocks on the same local day give the same count
    for every date string, and a clock [k] local days later gives a count
    lower by [k]. *)
Theorem daysUntil_clock (e1 e2 : Env) (s : string) (k : Z) :
  LocalTZA e2 = LocalTZA e1 -> strictDates e2 = strictDates e1 ->
  0 <= now e1 <= 8640000000000000 -> 0 <= now e2 <= 8640000000000000 ->
  Day (now e2 + LocalTZA e2) = Day (now e1 + LocalTZA e1) + k ->
  daysUntil e2 s = num_sub (daysUntil e1 s) (Some k).
Proof.
  intros Hz Hs H1 H2 Hk.
  destruct (Date_parse (strictDates e1) s) as [t|] eqn:Hp.
  - pose proof (Date_parse_range _ _ _ Hp) as Ht.
    rewrite (daysUntil_value e1 s t H1 Hp) by (unfold msPerDay; lia).
    rewrite <- Hs in Hp.
    rewrite (daysUntil_value e2 s t H2 Hp) by (unfold msPerDay; lia).
    simpl. rewrite Hk, Hz. f_equal. lia.
  - rewrite (daysUntil_unparsed e1 s Hp). rewrite <- Hs in Hp.
    rewrite (daysUntil_unparsed e2 s Hp). reflexivity.
Qed.

Lemma daysUntil_clock_witness :
  daysUntil (utc june10) "2024-06-08" = Some (-2).
Proof.
  rewrite (daysUntil_clock (utc june1) (utc june10) "2024-06-08" 9).
  - reflexivity.
  - reflexivity.
  - reflexivity.
  - vm_compute. split; discriminate.
  - vm_compute. split; discriminate.
  - reflexivity.
Defined.

(** *** From a calendar date to its day number and back *)

Lemma monthStart_of (m l : Z) :
  1 <= m <= 12 -> 0 <= l <= 1 ->
  forall d, 1 <= d <= (if m =? 2 then 28 + l
                       else if (m =? 4) || (m =? 6) || (m =? 9) || (m =? 11)
                            then 30 else 31) ->
  0 <= monthStart (m - 1) l + d - 1 < 365 + l
  /\ monthOfDay (monthStart (m - 1) l + d - 1) l = m - 1.
Proof.
  intros Hm Hl d Hd.
  assert (m = 1 \/ m = 2 \/ m = 3 \/ m = 4 \/ m = 5 \/ m = 6 \/ m = 7 \/ m = 8
          \/ m = 9 \/ m = 10 \/ m = 11 \/ m = 12) as H by lia.
  repeat (destruct H as [->|H]); try subst m;
    unfold monthStart, monthOfDay; simpl in *;
    (split; [lia|]);
    repeat match goal with
           | |- context [?a <? ?b] => destruct (Z.ltb_spec a b); try lia
           end;
    reflexivity.
Qed.

(** The calendar fields of the day number of a calendar date. *)
Lemma fields_of_MakeDay (y m d t : Z) :
  1 <= m <= 12 -> 1 <= d <= DaysInMonth y m ->
  Day t = MakeDay y (m - 1) d ->
  YearFromTime t = y /\ MonthFromTime t = m - 1 /\ DateFromTime t = d.
Proof.
  intros Hm Hd Hday.
  pose proof (leapDays_range y) as Hl.
  assert (HN : MakeDay y (m - 1) d
               = DayFromYear y + monthStart (m - 1) (leapDays y) + d - 1).
  { unfold MakeDay. cbv zeta.
    replace ((m - 1) / 12) with 0 by (Z.div_mod_to_equations; lia).
    replace ((m - 1) mod 12) with (m - 1) by (Z.div_mod_to_equations; lia).
    rewrite Z.add_0_r. reflexivity. }
  destruct (monthStart_of m (leapDays y) Hm Hl d Hd) as [Hrange Hmonth].
  assert (Hy : YearFromTime t = y).
  { unfold YearFromTime. rewrite Hday, HN.
    assert (y <= YearFromDay (DayFromYear y + monthStart (m - 1) (leapDays y) + d - 1)
            < y + 1); [|lia].
    apply YearFromDay_between.
    rewrite DayFromYear_succ, DaysInYear_leapDays. lia. }
  split; [exact Hy|].
  assert (Hdwy : DayWithinYear t = monthStart (m - 1) (leapDays y) + d - 1)
    by (unfold DayWithinYear; rewrite Hy, Hday, HN; lia).
  assert (Hleap : InLeapYear t = leapDays y) by (unfold InLeapYear; rewrite Hy; reflexivity).
  assert (Hmo : MonthFromTime t = m - 1)
    by (unfold MonthFromTime; rewrite Hdwy, Hleap; exact Hmonth).
  split; [exact Hmo|].
  unfold DateFromTime. rewrite Hmo, Hdwy, Hleap. lia.
Qed.

(** The ISO date of the day number of a calendar date of the years
    0..9999 is that date. *)
Lemma isoString_MakeDay (y m d t : Z) :
  0 <= y <= 9999 -> 1 <= m <= 12 -> 1 <= d <= DaysInMonth y m ->
  Day t = MakeDay y (m - 1) d ->
  slice0 10 (isoString t) = isoDate y m d.
Proof.
  intros Hy Hm Hd Hday.
  destruct (fields_of_MakeDay y m d t Hm Hd Hday) as (HY & HM & HD).
  rewrite isoString_date by lia.
  rewrite HY, HM, HD. unfold isoDate. repeat f_equal. lia.
Qed.

Lemma nextMonth_range (y m : Z) :
  1 <= m <= 12 ->
  1 <= snd (nextMonth y m) <= 12 /\ y <= fst (nextMonth y m) <= y + 1.
Proof.
  intros Hm. unfold nextMonth. destruct (Z.eqb_spec m 12); simpl; lia.
Qed.

(** [MakeDay] with the month after [m]: the month index [m] itself, which
    may be 12. *)
Lemma MakeDay_nextMonth (y m d : Z) :
  1 <= m <= 12 ->
  MakeDay y m d = MakeDay (fst (nextMonth y m)) (snd (nextMonth y m) - 1) d.
Proof.
  intros Hm. unfold nextMonth.
  destruct (Z.eqb_spec m 12) as [->|Hne]; cbn [fst snd].
  - unfold MakeDay. cbv zeta.
    change (12 / 12) with 1. change (12 mod 12) with 0.
    change ((1 - 1) / 12) with 0. change ((1 - 1) mod 12) with 0.
    replace (y + 1 + 0) with (y + 1) by lia. reflexivity.
  - replace (m + 1 - 1) with m by lia. reflexivity.
Qed.

(** Days beyond the end of a month count into the next month. *)
Lemma MakeDay_carry (y m d : Z) :
  1 <= m <= 12 ->
  MakeDay y (m - 1) d
  = MakeDay (fst (nextMonth y m)) (snd (nextMonth y m) - 1)
            (d - DaysInMonth y m).
Proof.
  intros Hm. rewrite <- MakeDay_nextMonth by exact Hm.
  pose proof (leapDays_range y) as Hl.
  unfold MakeDay. cbv zeta.
  replace ((m - 1) / 12) with 0 by (Z.div_mod_to_equations; lia).
  replace ((m - 1) mod 12) with (m - 1) by (Z.div_mod_to_equations; lia).
  rewrite Z.add_0_r.
  destruct (Z.eq_dec m 12) as [->|Hne].
  - change (12 / 12) with 1. change (12 mod 12) with 0.
    rewrite DayFromYear_succ, DaysInYear_leapDays.
    unfold DaysInMonth, monthStart. simpl. lia.
  - replace (m / 12) with 0 by (Z.div_mod_to_equations; lia).
    replace (m mod 12) with m by (Z.div_mod_to_equations; lia).
    rewrite Z.add_0_r. unfold DaysInMonth.
    assert (m = 1 \/ m = 2 \/ m = 3 \/ m = 4 \/ m = 5 \/ m = 6 \/ m = 7
            \/ m = 8 \/ m = 9 \/ m = 10 \/ m = 11) as H by lia.
    repeat (destruct H as [->|H]); try subst m; unfold monthStart; simpl; lia.
Qed.

(** The local fields of a parsed calendar date at or east of UTC are the
    fields of the string. *)
Lemma local_fields (tza y m d : Z) :
  0 <= tza < msPerDay -> 1 <= m <= 12 -> 1 <= d <= DaysInMonth y m ->
  let lt := LocalTime tza (MakeDay y (m - 1) d * msPerDay) in
  YearFromTime lt = y /\ MonthFromTime lt = m - 1 /\ DateFromTime lt = d
  /\ TimeWithinDay lt = tza.
Proof.
  intros Hz Hm Hd lt.
  assert (Hday : Day lt = MakeDay y (m - 1) d).
  { unfold lt, LocalTime, Day, msPerDay in *. Z.div_mod_to_equations. lia. }
  destruct (fields_of_MakeDay y m d lt Hm Hd Hday) as (HY & HM & HD).
  repeat split; try assumption.
  unfold lt, LocalTime, TimeWithinDay, msPerDay in *.
  Z.div_mod_to_equations. lia.
Qed.

Lemma Day_midnight (n : Z) : Day (n * msPerDay) = n.
Proof. unfold Day, msPerDay. Z.div_mod_to_equations. lia. Qed.

Lemma leapDays_succ (y : Z) : leapDays y = 1 -> leapDays (y + 1) = 0.
Proof.
  unfold leapDays, DaysInYear.
  destruct (Z.eqb_spec (y mod 4) 0) as [H4|H4]; simpl; [|discriminate].
  intros _.
  destruct (Z.eqb_spec ((y + 1) mod 4) 0) as [H4'|H4']; simpl; [|reflexivity].
  exfalso. Z.div_mod_to_equations. lia.
Qed.

Lemma monthStart_shift (m l l' : Z) :
  0 <= m <= 11 ->
  monthStart m l' - monthStart m l = (if m <=? 1 then 0 else l' - l).
Proof.
  intros Hm.
  assert (m = 0 \/ m = 1 \/ m = 2 \/ m = 3 \/ m = 4 \/ m = 5 \/ m = 6 \/ m = 7
          \/ m = 8 \/ m = 9 \/ m = 10 \/ m = 11) as H by lia.
  repeat (destruct H as [->|H]); try subst m; unfold monthStart; simpl; lia.
Qed.

Lemma MakeDay_year_step (t : Z) :
  exists n, 365 <= n <= 366
            /\ MakeDay (YearFromTime t + 1) (MonthFromTime t) (DateFromTime t)
               = Day t + n.
Proof.
  pose proof (MonthFromTime_range t) as Hm.
  pose proof (leapDays_range (YearFromTime t)) as Hl.
  pose proof (leapDays_range (YearFromTime t + 1)) as Hl'.
  pose proof (Day_decompose t) as Hday. unfold InLeapYear in Hday.
  pose proof (monthStart_shift (MonthFromTime t) (leapDays (YearFromTime t))
                (leapDays (YearFromTime t + 1)) Hm) as Hshift.
  unfold MakeDay. cbv zeta.
  replace (MonthFromTime t / 12) with 0 by (Z.div_mod_to_equations; lia).
  replace (MonthFromTime t mod 12) with (MonthFromTime t)
    by (Z.div_mod_to_equations; lia).
  rewrite Z.add_0_r, DayFromYear_succ, DaysInYear_leapDays.
  exists (365 + leapDays (YearFromTime t)
          + (monthStart (MonthFromTime t) (leapDays (YearFromTime t + 1))
             - monthStart (MonthFromTime t) (leapDays (YearFromTime t)))).
  split; [|lia].
  rewrite Hshift. destruct (MonthFromTime t <=? 1); lia.
Qed.

(** *** The default due date of a fresh form *)

Lemma YearFromTime_clock (t : Z) :
  0 <= t <= 253402300799999 -> 1970 <= YearFromTime t <= 9999.
Proof.
  intros Ht. unfold YearFromTime.
  assert (1970 <= YearFromDay (Day t) < 10000); [|lia].
  apply YearFromDay_between.
  change (DayFromYear 1970) with 0. change (DayFromYear 10000) with 2932897.
  unfold Day, msPerDay. Z.div_mod_to_equations. lia.
Qed.

Lemma isoString_day (t : Z) :
  0 <= t <= 253402300799999 ->
  slice0 10 (isoString t) = slice0 10 (isoString (Day t * msPerDay)).
Proof.
  intros Ht.
  assert (Hday : Day (Day t * msPerDay) = Day t) by apply Day_midnight.
  assert (HY : YearFromTime (Day t * msPerDay) = YearFromTime t)
    by (unfold YearFromTime; rewrite Hday; reflexivity).
  assert (HW : DayWithinYear (Day t * msPerDay) = DayWithinYear t)
    by (unfold DayWithinYear; rewrite Hday, HY; reflexivity).
  assert (HL : InLeapYear (Day t * msPerDay) = InLeapYear t)
    by (unfold InLeapYear; rewrite HY; reflexivity).
  assert (HM : MonthFromTime (Day t * msPerDay) = MonthFromTime t)
    by (unfold MonthFromTime; rewrite HW, HL; reflexivity).
  assert (HD : DateFromTime (Day t * msPerDay) = DateFromTime t)
    by (unfold DateFromTime; rewrite HW, HM, HL; reflexivity).
  pose proof (YearFromTime_clock t Ht).
  rewrite !isoString_date by (rewrite ?HY; lia).
  rewrite HY, HM, HD. reflexivity.
Qed.

Lemma resetForm_parse (e : Env) :
  0 <= now e <= 253402300799999 ->
  Date_parse (strictDates e) (dueEl (resetForm e))
  = Some (Day (now e) * msPerDay).
Proof.
  intros Hnow. simpl. rewrite (isoString_day (now e) Hnow).
  apply Date_parse_isoString.
  - unfold msPerDay. Z.div_mod_to_equations. lia.
  - pose proof (YearFromTime_clock (now e) Hnow) as HY.
    unfold YearFromTime in *. rewrite Day_midnight. lia.
Qed.

(** X24.  The due date that [resetForm] puts into a fresh form passes the
    date pattern of validation and is the calendar date of the clock in
    UTC; the fresh form itself is refused, for its empty name, and
    submitting it leaves the store as it was. *)
Theorem resetForm_default (e : Env) (bills : list Bill) :
  0 <= now e <= 253402300799999 ->
  RegExp_test dateRegex (dueEl (resetForm e)) = true
  /\ isCalendarDate (dueEl (resetForm e))
  /\ Date_parse (strictDates e) (dueEl (resetForm e))
     = Some (Day (now e) * msPerDay)
  /\ upsertBillFromForm e (resetForm e) bills
     = (false, mkOutcome bills ["Bill name is required"]).
Proof.
  intros Hnow.
  pose proof (YearFromTime_clock (now e) Hnow) as HY.
  pose proof (MonthFromTime_range (now e)) as HM.
  pose proof (DateFromTime_range (now e)) as HD.
  pose proof (DaysInMonth_range (YearFromTime (now e)) (MonthFromTime (now e) + 1)).
  assert (Hfields : dateOnlyFields (dueEl (resetForm e))
                    = Some (YearFromTime (now e), MonthFromTime (now e) + 1,
                            DateFromTime (now e))).
  { simpl. rewrite isoString_date by lia. apply dateOnlyFields_pad; lia. }
  split; [apply dateRegex_fields; eauto|].
  split; [unfold isCalendarDate; rewrite Hfields; lia|].
  split; [apply resetForm_parse, Hnow|].
  apply upsert_rejected. reflexivity.
Qed.

Lemma resetForm_default_witness :
  dueEl (resetForm (west june1)) = "2024-06-01"
  /\ Date_parse false (dueEl (resetForm (west june1))) = Some 1717200000000.
Proof.
  destruct (resetForm_default (west june1) []) as (_ & _ & H & _).
  - vm_compute. split; discriminate.
  - split; [reflexivity | exact H].
Defined.

(** X25.  The default due date is never in the future: with a time zone
    less than a day from UTC, its day count is 0 or -1, and it is 0 in
    UTC.  (The form takes the UTC date, the day count the local one.) *)
Theorem resetForm_daysUntil (e : Env) :
  0 <= now e <= 253402300799999 ->
  - msPerDay < LocalTZA e < msPerDay ->
  (daysUntil e (dueEl (resetForm e)) = Some 0
   \/ daysUntil e (dueEl (resetForm e)) = Some (-1))
  /\ (LocalTZA e = 0 -> daysUntil e (dueEl (resetForm e)) = Some 0).
Proof.
  intros Hnow Hz.
  rewrite (daysUntil_value e _ (Day (now e) * msPerDay));
    [|lia | apply resetForm_parse, Hnow
     |unfold Day, msPerDay; Z.div_mod_to_equations; lia].
  split.
  - assert (Day (Day (now e) * msPerDay + LocalTZA e) - Day (now e + LocalTZA e) = 0
            \/ Day (Day (now e) * msPerDay + LocalTZA e) - Day (now e + LocalTZA e) = -1)
      as [->| ->]; [|left; reflexivity | right; reflexivity].
    unfold Day, msPerDay in *. Z.div_mod_to_equations. lia.
  - intros ->. f_equal. unfold Day, msPerDay in *. Z.div_mod_to_equations. lia.
Qed.

Lemma resetForm_daysUntil_witness :
  daysUntil (utc june1) (dueEl (resetForm (utc june1))) = Some 0.
Proof.
  apply (resetForm_daysUntil (utc june1)).
  - vm_compute. split; discriminate.
  - vm_compute. split; reflexivity.
  - reflexivity.
Defined.

End DateAlgebra.

(** ** The next occurrence where the clocks change *)
Module ZoneAlgebra.
Import JS Main Spec Samples JSFacts DateFacts ViewFacts StoreFacts Page PageSpec.
Import DateAlgebra.
Import TimeZone.

(** With a fixed offset the zone-aware function is [Main.nextRecurringDate]. *)
Lemma nextRecurringDate_fixedZone (e : Env) (s : string) (r : Recurrence) :
  TimeZone.nextRecurringDate (fixedZone (LocalTZA e)) (strictDates e) s r
  = Main.nextRecurringDate e s r.
Proof.
  unfold TimeZone.nextRecurringDate, Main.nextRecurringDate,
    TimeZone.setMonth, JS.setMonth, TimeZone.setFullYear, JS.setFullYear,
    TimeZone.getMonth, JS.getMonth, TimeZone.getFullYear, JS.getFullYear,
    TimeZone.LocalTime, JS.LocalTime, TimeZone.UTC, JS.UTC, fixedZone.
  cbn [offsetAt offsetOfLocal]. reflexivity.
Qed.

(** The date part of [toISOString] depends on the day only. *)
Lemma isoString_same_day (t u : Z) :
  Day u = Day t -> 0 <= YearFromTime t <= 9999 ->
  slice0 10 (isoString u) = slice0 10 (isoString t).
Proof.
  intros Hday Hyear.
  assert (HY : YearFromTime u = YearFromTime t)
    by (unfold YearFromTime; rewrite Hday; reflexivity).
  assert (HW : DayWithinYear u = DayWithinYear t)
    by (unfold DayWithinYear; rewrite Hday, HY; reflexivity).
  assert (HL : InLeapYear u = InLeapYear t)
    by (unfold InLeapYear; rewrite HY; reflexivity).
  assert (HM : MonthFromTime u = MonthFromTime t)
    by (unfold MonthFromTime; rewrite HW, HL; reflexivity).
  assert (HD : DateFromTime u = DateFromTime t)
    by (unfold DateFromTime; rewrite HW, HM, HL; reflexivity).
  rewrite !isoString_date by (rewrite ?HY; lia).
  rewrite HY, HM, HD. reflexivity.
Qed.

Lemma MakeDay_date (y m d k : Z) : MakeDay y m (d + k) = MakeDay y m d + k.
Proof. unfold MakeDay. cbv zeta. lia. Qed.

(** The day number of the monthly next date, which is a calendar date. *)
Lemma MakeDay_monthlyNext (y m d y' m' d' : Z) :
  0 <= y <= 9997 -> 1 <= m <= 12 -> 1 <= d <= DaysInMonth y m ->
  monthlyNext y m d = (y', m', d') ->
  MakeDay y m d = MakeDay y' (m' - 1) d'
  /\ y <= y' <= y + 1 /\ 1 <= m' <= 12 /\ 1 <= d' <= DaysInMonth y' m'
  /\ (m' = 1 -> y' = y + 1).
Proof.
  intros Hy Hm Hd. unfold monthlyNext.
  pose proof (nextMonth_range y m Hm) as [Hm1 Hy1].
  pose proof (MakeDay_nextMonth y m d Hm) as Hnext.
  assert (Hjan : snd (nextMonth y m) = 1 -> fst (nextMonth y m) = y + 1).
  { unfold nextMonth. destruct (Z.eqb_spec m 12); simpl; lia. }
  destruct (nextMonth y m) as [y1 m1]. simpl in *.
  pose proof (DaysInMonth_range y m). pose proof (DaysInMonth_range y1 m1).
  destruct (Z.leb_spec d (DaysInMonth y1 m1)) as [Hfit|Hover].
  - intros [= <- <- <-]. repeat split; try lia; exact Hnext.
  - assert (Hm12 : m1 <> 12).
    { intros ->. unfold DaysInMonth in Hover. simpl in Hover. lia. }
    pose proof (MakeDay_carry y1 m1 d Hm1) as Hcarry.
    unfold nextMonth in *. apply Z.eqb_neq in Hm12. rewrite Hm12 in *.
    simpl in *. apply Z.eqb_neq in Hm12.
    pose proof (DaysInMonth_range y1 (m1 + 1)).
    intros [= <- <- <-].
    repeat split; try lia; rewrite Hnext; exact Hcarry.
Qed.

(** The day number of the yearly next date, which is a calendar date. *)
Lemma MakeDay_yearlyNext (y m d y' m' d' : Z) :
  0 <= y <= 9997 -> 1 <= m <= 12 -> 1 <= d <= DaysInMonth y m ->
  yearlyNext y m d = (y', m', d') ->
  MakeDay (y + 1) (m - 1) d = MakeDay y' (m' - 1) d'
  /\ y' = y + 1 /\ 1 <= m' <= 12 /\ 1 <= d' <= DaysInMonth y' m'.
Proof.
  intros Hy Hm Hd. unfold yearlyNext.
  destruct (Z.eqb_spec m 2) as [->|Hm2]; simpl andb.
  - destruct (Z.eqb_spec d 29) as [->|Hd29]; intros [= <- <- <-].
    + assert (Hleap : leapDays y = 1).
      { unfold DaysInMonth in Hd. simpl in Hd.
        pose proof (leapDays_range y). lia. }
      pose proof (leapDays_succ y Hleap) as Hnext.
      split; [|split; [reflexivity | split; [lia|]]].
      * rewrite (MakeDay_carry (y + 1) 2 29) by lia.
        unfold nextMonth, DaysInMonth. simpl. rewrite Hnext. reflexivity.
      * unfold DaysInMonth. simpl. lia.
    + split; [reflexivity | split; [reflexivity | split; [lia|]]].
      unfold DaysInMonth in *. simpl in *.
      pose proof (leapDays_range y). pose proof (leapDays_range (y + 1)). lia.
  - intros [= <- <- <-].
    split; [reflexivity | split; [reflexivity | split; [lia|]]].
    unfold DaysInMonth in *. apply Z.eqb_neq in Hm2. rewrite Hm2 in *. exact Hd.
Qed.

(** The calendar date before a calendar date, and its day number. *)
Lemma MakeDay_dayBefore (y m d y' m' d' : Z) :
  1 <= m <= 12 -> 1 <= d <= DaysInMonth y m ->
  dayBefore y m d = (y', m', d') ->
  MakeDay y' (m' - 1) d' = MakeDay y (m - 1) d - 1
  /\ 1 <= m' <= 12 /\ 1 <= d' <= DaysInMonth y' m'
  /\ y - 1 <= y' <= y /\ (2 <= m -> y' = y).
Proof.
  intros Hm Hd. unfold dayBefore.
  pose proof (DaysInMonth_range y (m - 1)) as Hprev.
  destruct (Z.ltb_spec 1 d) as [Hd1|Hd1].
  - intros [= <- <- <-]. repeat split; try lia.
    apply (MakeDay_date y (m - 1) d (-1)).
  - assert (d = 1) as -> by lia.
    destruct (Z.ltb_spec 1 m) as [Hm1|Hm1]; intros [= <- <- <-].
    + repeat split; try lia.
      rewrite (MakeDay_carry y (m - 1) (DaysInMonth y (m - 1))) by lia.
      unfold nextMonth. destruct (Z.eqb_spec (m - 1) 12); [lia|]. cbn [fst snd].
      replace (m - 1 + 1 - 1) with (m - 1) by lia.
      rewrite Z.sub_diag. apply (MakeDay_date y (m - 1) 1 (-1)).
    + assert (m = 1) as -> by lia.
      repeat split; try lia; try (unfold DaysInMonth; simpl; lia).
      rewrite (MakeDay_carry (y - 1) 12 31) by lia.
      unfold nextMonth. simpl Z.eqb. cbn iota. cbn [fst snd].
      replace (y - 1 + 1) with y by lia.
      change (31 - DaysInMonth (y - 1) 12) with 0.
      apply (MakeDay_date y (1 - 1) 1 (-1)).
Qed.

(** The local fields of a parsed calendar date where the offset in force
    is at or east of UTC. *)
Lemma zone_local_fields (z : Zone) (y m d : Z) :
  0 <= offsetAt z (MakeDay y (m - 1) d * msPerDay) < msPerDay ->
  1 <= m <= 12 -> 1 <= d <= DaysInMonth y m ->
  let lt := TimeZone.LocalTime z (MakeDay y (m - 1) d * msPerDay) in
  YearFromTime lt = y /\ MonthFromTime lt = m - 1 /\ DateFromTime lt = d
  /\ TimeWithinDay lt = offsetAt z (MakeDay y (m - 1) d * msPerDay).
Proof.
  intros Hz Hm Hd.
  exact (local_fields (offsetAt z (MakeDay y (m - 1) d * msPerDay)) y m d Hz Hm Hd).
Qed.

(** The date part of the ISO string of a time [off - off'] past midnight
    of day [n]: the day itself, or the day before. *)
Lemma Day_offsets (n off off' : Z) :
  (off' <= off < off' + msPerDay -> Day (n * msPerDay + off - off') = n)
  /\ (off < off' <= off + msPerDay -> Day (n * msPerDay + off - off') = n - 1).
Proof.
  unfold Day, msPerDay. split; intros H; Z.div_mod_to_equations; lia.
Qed.

(** X21.  Where the offset in force at the due date is at or east of UTC,
    the monthly next occurrence is the same day of the next month, days
    beyond the end of that month being carried into the month after it,
    as long as the offset in force on that day is not larger; when it is
    larger (daylight saving has begun in between), the result is the day
    before. *)
Theorem monthly_next_date (z : Zone) (strict : bool) (s : string)
  (y m d y' m' d' : Z) :
  isCalendarDate s -> dateOnlyFields s = Some (y, m, d) -> y <= 9997 ->
  monthlyNext y m d = (y', m', d') ->
  let off := offsetAt z (MakeDay y (m - 1) d * msPerDay) in
  let off' := offsetOfLocal z (MakeDay y' (m' - 1) d' * msPerDay + off) in
  0 <= off < msPerDay ->
  (off' <= off < off' + msPerDay ->
   TimeZone.nextRecurringDate z strict s monthly
   = Returned (isoDate y' m' d'))
  /\ (off < off' <= off + msPerDay ->
      TimeZone.nextRecurringDate z strict s monthly
      = Returned (let '(y2, m2, d2) := dayBefore y' m' d' in isoDate y2 m2 d2)).
Proof.
  intros Hc Hf Hy97 Hnext off off' Hoff.
  destruct (Date_parse_calendar strict s Hc)
    as (y0 & m0 & d0 & Hf0 & Hy & Hm & Hd & Hp).
  rewrite Hf in Hf0. injection Hf0 as <- <- <-.
  destruct (zone_local_fields z y m d Hoff Hm Hd) as (HY & HM & HD & HT).
  cbv zeta in HY, HM, HD, HT.
  destruct (MakeDay_monthlyNext y m d y' m' d' ltac:(lia) Hm Hd Hnext)
    as (HE & Hy' & Hm' & Hd' & Hjan).
  pose proof (DaysInMonth_range y' m') as Hdim.
  pose proof (MakeDay_range y' (m' - 1) d' ltac:(lia) ltac:(lia) ltac:(lia))
    as Hrange.
  assert (Hres : forall u,
             -8640000000000000 <= MakeDay y' (m' - 1) d' * msPerDay + off - off'
             <= 8640000000000000 ->
             slice0 10 (isoString (MakeDay y' (m' - 1) d' * msPerDay + off - off')) = u ->
             TimeZone.nextRecurringDate z strict s monthly = Returned u).
  { intros u Hclip <-.
    unfold TimeZone.nextRecurringDate. rewrite Hp.
    unfold TimeZone.setMonth, TimeZone.getMonth, num_add.
    simpl option_map. cbv iota beta zeta.
    rewrite HY, HM, HD, HT.
    replace (m - 1 + 1) with m by lia.
    unfold TimeZone.UTC, MakeDate. rewrite HE. fold off. fold off'.
    rewrite TimeClip_in_range by exact Hclip. reflexivity. }
  destruct (Day_offsets (MakeDay y' (m' - 1) d') off off') as [Hsame Hprev].
  split; intros Hcase.
  - apply Hres; [unfold msPerDay in *; lia|].
    apply isoString_MakeDay; [lia | exact Hm' | exact Hd' | apply Hsame, Hcase].
  - destruct (dayBefore y' m' d') as [[y2 m2] d2] eqn:Hb.
    destruct (MakeDay_dayBefore y' m' d' y2 m2 d2 Hm' Hd' Hb)
      as (HB & Hm2 & Hd2 & Hy2 & Hkeep).
    apply Hres; [unfold msPerDay in *; lia|].
    apply isoString_MakeDay; [|exact Hm2 | exact Hd2 |].
    + destruct (Z.eq_dec m' 1) as [H1|H1]; [specialize (Hjan H1)|]; lia.
    + rewrite HB. apply Hprev, Hcase.
Qed.

Lemma monthly_next_date_witness :
  TimeZone.nextRecurringDate london false "2024-03-15" monthly
  = Returned "2024-04-14"
  /\ TimeZone.nextRecurringDate london false "2024-01-31" monthly
     = Returned "2024-03-02".
Proof.
  split.
  - destruct (monthly_next_date london false "2024-03-15" 2024 3 15 2024 4 15)
      as [_ H].
    + vm_compute. split; split; discriminate.
    + reflexivity.
    + lia.
    + reflexivity.
    + vm_compute. split; [discriminate | reflexivity].
    + rewrite H; [reflexivity|]. vm_compute. split; [reflexivity | discriminate].
  - destruct (monthly_next_date london false "2024-01-31" 2024 1 31 2024 3 2)
      as [H _].
    + vm_compute. split; split; discriminate.
    + reflexivity.
    + lia.
    + reflexivity.
    + vm_compute. split; [discriminate | reflexivity].
    + rewrite H; [reflexivity|]. vm_compute. split; [discriminate | reflexivity].
Defined.

(** X22.  Where the offset in force at the due date is at or east of UTC,
    the yearly next occurrence is the same month and day of the next year
    (1 March for 29 February), as long as the offset in force on that day
    is not larger; when it is larger, the result is the day before. *)
Theorem yearly_next_date (z : Zone) (strict : bool) (s : string)
  (y m d y' m' d' : Z) :
  isCalendarDate s -> dateOnlyFields s = Some (y, m, d) -> y <= 9997 ->
  yearlyNext y m d = (y', m', d') ->
  let off := offsetAt z (MakeDay y (m - 1) d * msPerDay) in
  let off' := offsetOfLocal z (MakeDay y' (m' - 1) d' * msPerDay + off) in
  0 <= off < msPerDay ->
  (off' <= off < off' + msPerDay ->
   TimeZone.nextRecurringDate z strict s yearly
   = Returned (isoDate y' m' d'))
  /\ (off < off' <= off + msPerDay ->
      TimeZone.nextRecurringDate z strict s yearly
      = Returned (let '(y2, m2, d2) := dayBefore y' m' d' in isoDate y2 m2 d2)).
Proof.
  intros Hc Hf Hy97 Hnext off off' Hoff.
  destruct (Date_parse_calendar strict s Hc)
    as (y0 & m0 & d0 & Hf0 & Hy & Hm & Hd & Hp).
  rewrite Hf in Hf0. injection Hf0 as <- <- <-.
  destruct (zone_local_fields z y m d Hoff Hm Hd) as (HY & HM & HD & HT).
  cbv zeta in HY, HM, HD, HT.
  destruct (MakeDay_yearlyNext y m d y' m' d' ltac:(lia) Hm Hd Hnext)
    as (HE & Hy' & Hm' & Hd').
  pose proof (DaysInMonth_range y' m') as Hdim.
  pose proof (MakeDay_range y' (m' - 1) d' ltac:(lia) ltac:(lia) ltac:(lia))
    as Hrange.
  assert (Hres : forall u,
             -8640000000000000 <= MakeDay y' (m' - 1) d' * msPerDay + off - off'
             <= 8640000000000000 ->
             slice0 10 (isoString (MakeDay y' (m' - 1) d' * msPerDay + off - off')) = u ->
             TimeZone.nextRecurringDate z strict s yearly = Returned u).
  { intros u Hclip <-.
    unfold TimeZone.nextRecurringDate. rewrite Hp.
    unfold TimeZone.setFullYear, TimeZone.getFullYear, num_add.
    simpl option_map. cbv iota beta zeta.
    rewrite HY, HM, HD, HT.
    unfold TimeZone.UTC, MakeDate. rewrite HE. fold off. fold off'.
    rewrite TimeClip_in_range by exact Hclip. reflexivity. }
  destruct (Day_offsets (MakeDay y' (m' - 1) d') off off') as [Hsame Hprev].
  split; intros Hcase.
  - apply Hres; [unfold msPerDay in *; lia|].
    apply isoString_MakeDay; [lia | exact Hm' | exact Hd' | apply Hsame, Hcase].
  - destruct (dayBefore y' m' d') as [[y2 m2] d2] eqn:Hb.
    destruct (MakeDay_dayBefore y' m' d' y2 m2 d2 Hm' Hd' Hb)
      as (HB & Hm2 & Hd2 & Hy2 & Hkeep).
    apply Hres; [unfold msPerDay in *; lia|].
    apply isoString_MakeDay; [lia | exact Hm2 | exact Hd2 |].
    rewrite HB. apply Hprev, Hcase.
Qed.

Lemma yearly_next_date_witness :
  TimeZone.nextRecurringDate london false "2024-03-31" yearly
  = Returned "2025-03-30"
  /\ TimeZone.nextRecurringDate london false "2024-02-29" yearly
     = Returned "2025-03-01".
Proof.
  split.
  - destruct (yearly_next_date london false "2024-03-31" 2024 3 31 2025 3 31)
      as [_ H].
    + vm_compute. split; split; discriminate.
    + reflexivity.
    + lia.
    + reflexivity.
    + vm_compute. split; [discriminate | reflexivity].
    + rewrite H; [reflexivity|]. vm_compute. split; [reflexivity | discriminate].
  - destruct (yearly_next_date london false "2024-02-29" 2024 2 29 2025 3 1)
      as [H _].
    + vm_compute. split; split; discriminate.
    + reflexivity.
    + lia.
    + reflexivity.
    + vm_compute. split; [discriminate | reflexivity].
    + rewrite H; [reflexivity|]. vm_compute. split; [discriminate | reflexivity].
Defined.

(** *** The length of a step, in any time zone *)

(** The setters move the local time by whole days and return to UTC with
    the offset of the new local time. *)
Lemma zone_setMonth (z : Zone) (t : Z) :
  exists n, 28 <= n <= 31
            /\ TimeZone.setMonth z (Some t)
                 (num_add (TimeZone.getMonth z (Some t)) (Some 1))
               = TimeClip (TimeZone.UTC z (TimeZone.LocalTime z t + n * msPerDay)).
Proof.
  unfold TimeZone.setMonth, TimeZone.getMonth, num_add. simpl option_map.
  cbv iota beta zeta.
  destruct (MakeDay_next_month (TimeZone.LocalTime z t)) as (n & Hn & ->).
  exists n. split; [exact Hn|].
  pose proof (Day_TimeWithinDay (TimeZone.LocalTime z t)) as Hsplit.
  unfold MakeDate. do 2 f_equal. lia.
Qed.

Lemma zone_setFullYear (z : Zone) (t : Z) :
  exists n, 365 <= n <= 366
            /\ TimeZone.setFullYear z (Some t)
                 (num_add (TimeZone.getFullYear z (Some t)) (Some 1))
               = TimeClip (TimeZone.UTC z (TimeZone.LocalTime z t + n * msPerDay)).
Proof.
  unfold TimeZone.setFullYear, TimeZone.getFullYear, num_add. simpl option_map.
  cbv iota beta zeta.
  destruct (MakeDay_year_step (TimeZone.LocalTime z t)) as (n & Hn & ->).
  exists n. split; [exact Hn|].
  pose proof (Day_TimeWithinDay (TimeZone.LocalTime z t)) as Hsplit.
  unfold MakeDate. do 2 f_equal. lia.
Qed.

(** X23.  In a zone whose offsets differ by less than a day, the next
    occurrence of a calendar date before the year 9998 is again a date the
    engine parses, a whole number of days later: 27 to 31 days for a
    monthly bill and 364 to 366 for a yearly one, and at least 28 or 365
    when the offset taken for the new local time is not larger than the
    offset in force at the due date. *)
Theorem nextRecurringDate_step (z : Zone) (strict : bool) (s : string)
  (r : Recurrence) (y m d : Z) :
  isCalendarDate s -> dateOnlyFields s = Some (y, m, d) -> y <= 9997 ->
  r <> none ->
  let t := MakeDay y (m - 1) d * msPerDay in
  (forall l, - msPerDay < offsetOfLocal z l - offsetAt z t < msPerDay) ->
  exists next n,
    TimeZone.nextRecurringDate z strict s r = Returned next
    /\ Date_parse strict next = Some (t + n * msPerDay)
    /\ (r = monthly -> 27 <= n <= 31)
    /\ (r = yearly -> 364 <= n <= 366)
    /\ ((forall l, offsetOfLocal z l <= offsetAt z t) ->
        (r = monthly -> 28 <= n) /\ (r = yearly -> 365 <= n)).
Proof.
  intros Hc Hf Hy97 Hr t Hz.
  destruct (Date_parse_calendar strict s Hc)
    as (y0 & m0 & d0 & Hf0 & Hy & Hm & Hd & Hp).
  rewrite Hf in Hf0. injection Hf0 as <- <- <-.
  pose proof (DaysInMonth_range y m) as Hdim.
  pose proof (MakeDay_range y (m - 1) d Hy ltac:(lia) ltac:(lia)) as Hrange.
  fold t in Hp.
  assert (Ht : -8000000000000000 <= t <= 8000000000000000)
    by (unfold t, msPerDay; lia).
  assert (Hstep : exists k,
             (r = monthly -> 28 <= k <= 31) /\ (r = yearly -> 365 <= k <= 366)
             /\ 28 <= k <= 366
             /\ TimeZone.nextRecurringDate z strict s r
                = Returned (slice0 10 (isoString
                    (TimeZone.UTC z (TimeZone.LocalTime z t + k * msPerDay))))).
  { assert (Hclip : forall k, 28 <= k <= 366 ->
               TimeClip (TimeZone.UTC z (TimeZone.LocalTime z t + k * msPerDay))
               = Some (TimeZone.UTC z (TimeZone.LocalTime z t + k * msPerDay))).
    { intros k Hk. apply TimeClip_in_range.
      unfold TimeZone.UTC, TimeZone.LocalTime.
      specialize (Hz (t + offsetAt z t + k * msPerDay)).
      unfold msPerDay in *. lia. }
    unfold TimeZone.nextRecurringDate. rewrite Hp.
    destruct r; [contradiction| |].
    - destruct (zone_setMonth z t) as (k & Hk & ->).
      exists k. rewrite Hclip by lia.
      repeat split; try lia; discriminate.
    - destruct (zone_setFullYear z t) as (k & Hk & ->).
      exists k. rewrite Hclip by lia.
      repeat split; try lia; discriminate. }
  destruct Hstep as (k & Hmon & Hyr & Hk & Hnext).
  set (u := TimeZone.UTC z (TimeZone.LocalTime z t + k * msPerDay)) in *.
  assert (Hday : Day u = MakeDay y (m - 1) d + k
                 \/ (Day u = MakeDay y (m - 1) d + k - 1
                     /\ exists l, offsetAt z t < offsetOfLocal z l)).
  { unfold u, TimeZone.UTC, TimeZone.LocalTime.
    specialize (Hz (t + offsetAt z t + k * msPerDay)).
    destruct (Z_le_gt_dec (offsetOfLocal z (t + offsetAt z t + k * msPerDay))
                          (offsetAt z t)) as [Hle|Hgt].
    - left. unfold t, Day, msPerDay in *. Z.div_mod_to_equations. lia.
    - right. split; [|eexists; apply Z.gt_lt, Hgt].
      unfold t, Day, msPerDay in *. Z.div_mod_to_equations. lia. }
  assert (Hn : exists n, Day u = MakeDay y (m - 1) d + n
                         /\ k - 1 <= n <= k
                         /\ ((forall l, offsetOfLocal z l <= offsetAt z t) -> n = k)).
  { destruct Hday as [Hday|[Hday (l & Hl)]].
    - exists k. repeat split; [exact Hday | lia | lia].
    - exists (k - 1). repeat split; [lia | lia | lia|].
      intros Hall. specialize (Hall l). lia. }
  destruct Hn as (n & Hday' & Hnk & Hfix).
  assert (Hyear : 0 <= YearFromTime (Day u * msPerDay) <= 9999).
  { unfold YearFromTime. rewrite Day_midnight, Hday'.
    assert (0 <= YearFromDay (MakeDay y (m - 1) d + n) < 10000); [|lia].
    apply YearFromDay_between.
    clear Hnext Hp Hday Hday' Hz Hfix. clear u. unfold t in *. clear t.
    unfold MakeDay in *. cbv zeta in *.
    replace ((m - 1) / 12) with 0 in * by (Z.div_mod_to_equations; lia).
    rewrite Z.add_0_r in *.
    pose proof (monthStart_range ((m - 1) mod 12) (leapDays y) (leapDays_range y)).
    pose proof (DayFromYear_mono 0 y ltac:(lia)).
    pose proof (DayFromYear_mono y 9997 ltac:(lia)).
    change (DayFromYear 9997) with 2931802 in *.
    change (DayFromYear 10000) with 2932897.
    change (DayFromYear 0) with (-719528) in *.
    lia. }
  exists (slice0 10 (isoString u)), n.
  split; [exact Hnext|]. split.
  - rewrite (isoString_same_day (Day u * msPerDay) u
               (eq_sym (Day_midnight (Day u))) Hyear).
    replace (t + n * msPerDay) with (Day u * msPerDay)
      by (rewrite Hday'; unfold t; lia).
    apply Date_parse_isoString; [|exact Hyear].
    unfold msPerDay. Z.div_mod_to_equations. lia.
  - split; [intros H; specialize (Hmon H); lia|].
    split; [intros H; specialize (Hyr H); lia|].
    intros Hall. specialize (Hfix Hall). subst n.
    split; intros H; [specialize (Hmon H) | specialize (Hyr H)]; lia.
Qed.

Lemma nextRecurringDate_step_witness :
  exists n, Date_parse false "2023-03-14"
            = Some (1676419200000 + n * msPerDay)
            /\ 27 <= n <= 31.
Proof.
  destruct (nextRecurringDate_step newYork false "2023-02-15" monthly 2023 2 15)
    as (next & n & Hnext & Hp & Hmon & _).
  - vm_compute. split; split; discriminate.
  - reflexivity.
  - lia.
  - discriminate.
  - intros l. unfold newYork, summerTime. cbn [offsetAt offsetOfLocal].
    destruct (inPeriod _ 0 _), (inPeriod _ _ l); unfold msPerHour, msPerDay; lia.
  - exists n. vm_compute in Hnext. injection Hnext as <-.
    split; [exact Hp | apply Hmon; reflexivity].
Defined.

End ZoneAlgebra.
